(** * Plank generation for a bouncing ball: snapshots, validity oracle,
    candidate poses and the backtracking driver.

  Shallow embedding of
    - src/game/memento/MementoConcept.ts  (Memento, Originator, Caretaker),
    - the scene MusicMelody.ts that uses it (placePlankForNote,
      wouldOverlapWithHistory, pointToSegmentDistance),
    - .tmp/MusicMelody.ts (the stack-based generator).

  JavaScript numbers are idealised: as real numbers where the code takes
  square roots, sines and cosines (the scene), as rationals where it only
  copies, adds and compares them (the stack-based generator). *)

From Stdlib Require Import List ZArith QArith Qround Reals Lra Lia Psatz Bool.
From Stdlib Require Import Permutation.
Import ListNotations.

Local Open Scope R_scope.

(* ------------------------------------------------------------------ *)
(** ** Phaser.Math.Vector2 over the reals *)

Module Vector2.

Record t : Type := mk { x : R; y : R }.

Definition clone (v : t) : t := v.

Definition add (v src : t) : t := mk (x v + x src) (y v + y src).

Definition subtract (v src : t) : t := mk (x v - x src) (y v - y src).

(** [multiply] is component-wise. *)
Definition multiply (v src : t) : t := mk (x v * x src) (y v * y src).

(** [scale]: every real is finite, so the [isFinite] branch is the one taken. *)
Definition scale (v : t) (value : R) : t := mk (x v * value) (y v * value).

Definition dot (v src : t) : R := x v * x src + y v * y src.

Definition lengthSq (v : t) : R := x v * x v + y v * y v.

Definition distance (v src : t) : R :=
  let dx := x src - x v in
  let dy := y src - y v in
  sqrt (dx * dx + dy * dy).

(** [normalize]: untouched when the squared length is not positive. *)
Definition normalize (v : t) : t :=
  let len := x v * x v + y v * y v in
  if Rlt_dec 0 len
  then let len' := 1 / sqrt len in mk (x v * len') (y v * len')
  else v.

(** [rotate(delta)]; in Phaser it overwrites the receiver and returns it. *)
Definition rotate (v : t) (delta : R) : t :=
  let c := cos delta in
  let s := sin delta in
  mk (c * x v - s * y v) (s * x v + c * y v).

End Vector2.

Definition DegToRad (degrees : R) : R := degrees * (PI / 180).

(* ------------------------------------------------------------------ *)
(** ** pointToSegmentDistance (scene, MusicMelody.ts) *)

Definition pointToSegmentDistance (lineStart lineEnd point : Vector2.t) : R :=
let lineVec := Vector2.subtract (Vector2.clone lineEnd) lineStart in
let pointVec := Vector2.subtract (Vector2.clone point) lineStart in
let dotProduct := Vector2.dot pointVec lineVec in
if Rle_dec dotProduct 0 then Vector2.distance point lineStart
else
  let squaredLineLength := Vector2.lengthSq lineVec in
  if Rge_dec dotProduct squaredLineLength then Vector2.distance point lineEnd
  else
    let projection :=
      Vector2.scale (Vector2.clone lineVec) (dotProduct / squaredLineLength) in
    let closestPoint := Vector2.add (Vector2.clone lineStart) projection in
    Vector2.distance point closestPoint.

(** The point of the segment from [a] to [b] at parameter [s]. *)
Definition segmentPoint (a b : Vector2.t) (s : R) : Vector2.t :=
Vector2.mk (Vector2.x a + s * (Vector2.x b - Vector2.x a))
           (Vector2.y a + s * (Vector2.y b - Vector2.y a)).

(** Dot product of [p - a] with [b - a], and squared length of [b - a]. *)
Definition projDot (a b p : Vector2.t) : R :=
(Vector2.x p - Vector2.x a) * (Vector2.x b - Vector2.x a)
+ (Vector2.y p - Vector2.y a) * (Vector2.y b - Vector2.y a).

Definition segLenSq (a b : Vector2.t) : R :=
(Vector2.x b - Vector2.x a) * (Vector2.x b - Vector2.x a)
+ (Vector2.y b - Vector2.y a) * (Vector2.y b - Vector2.y a).

(** Distance from [p] to the whole line through [a] and [b]. *)
Definition lineDistance (a b p : Vector2.t) : R :=
Rabs ((Vector2.x p - Vector2.x a) * (Vector2.y b - Vector2.y a)
      - (Vector2.y p - Vector2.y a) * (Vector2.x b - Vector2.x a))
/ sqrt (segLenSq a b).

(* ------------------------------------------------------------------ *)
(** ** The part of Rapier the code talks to

    Bodies and colliders live in the physics world and are addressed by
    handle.  Which colliders intersect is decided by the engine; the scene
    only sees the answer of [intersectionPairsWith], so that answer is a
    parameter of the functions that ask for it. *)

Module Rapier.

Inductive RigidBodyType : Type := Dynamic | Fixed.

Inductive ShapeType : Type := Ball | Cuboid.

(** [ColliderDesc.ball(radius)] and [ColliderDesc.cuboid(hx, hy)]. *)
Inductive Shape : Type :=
| ball (radius : R)
| cuboid (hx hy : R).

Definition shapeTypeOf (s : Shape) : ShapeType :=
  match s with
  | ball _ => Ball
  | cuboid _ _ => Cuboid
  end.

(** The values of [ActiveCollisionTypes] that occur: the default of a new
    collider description and the two the scene sets. *)
Inductive ActiveCollisionTypes : Type := DEFAULT | FIXED_FIXED | DYNAMIC_FIXED.

Record RigidBody : Type := mkRigidBody {
  handle : Z;
  bodyType : RigidBodyType;
  translation : Vector2.t;
  rotation : R;
  linvel : Vector2.t
}.

Definition setTranslation (b : RigidBody) (v : Vector2.t) : RigidBody :=
  mkRigidBody (handle b) (bodyType b) v (rotation b) (linvel b).

Definition setLinvel (b : RigidBody) (v : Vector2.t) : RigidBody :=
  mkRigidBody (handle b) (bodyType b) (translation b) (rotation b) v.

Record Collider : Type := mkCollider {
  colliderHandle : Z;
  parent : Z;
  shape : Shape;
  activeCollisionTypes : ActiveCollisionTypes;
  isSensor : bool;
  restitution : R;
  isEnabled : bool
}.

Record World : Type := mkWorld {
  bodies : list RigidBody;
  colliders : list Collider;
  nextHandle : Z
}.

(** [RigidBodyDesc.fixed().setTranslation(x, y).setRotation(angle)] handed to
    [world.createRigidBody]. *)
Definition createFixedBody (w : World) (x y angle : R) : RigidBody * World :=
  let b := mkRigidBody (nextHandle w) Fixed (Vector2.mk x y) angle (Vector2.mk 0 0) in
  (b, mkWorld (bodies w ++ [b]) (colliders w) (nextHandle w + 1)).

(** [world.createCollider(desc, body)]; a new collider is enabled. *)
Definition createCollider (w : World) (s : Shape)
    (act : ActiveCollisionTypes) (sensor : bool) (rest : R) (body : RigidBody)
  : Collider * World :=
  let c := mkCollider (nextHandle w) (handle body) s act sensor rest true in
  (c, mkWorld (bodies w) (colliders w ++ [c]) (nextHandle w + 1)).

Definition updateCollider (f : Collider -> Collider) (h : Z) (w : World) : World :=
  mkWorld (bodies w)
          (map (fun c => if Z.eqb (colliderHandle c) h then f c else c) (colliders w))
          (nextHandle w).

Definition setEnabled (h : Z) (v : bool) : World -> World :=
  updateCollider (fun c => mkCollider (colliderHandle c) (parent c) (shape c)
                             (activeCollisionTypes c) (isSensor c) (restitution c) v) h.

Definition setSensor (h : Z) (v : bool) : World -> World :=
  updateCollider (fun c => mkCollider (colliderHandle c) (parent c) (shape c)
                             (activeCollisionTypes c) v (restitution c) (isEnabled c)) h.

Definition setActiveCollisionTypes (h : Z) (v : ActiveCollisionTypes) : World -> World :=
  updateCollider (fun c => mkCollider (colliderHandle c) (parent c) (shape c)
                             v (isSensor c) (restitution c) (isEnabled c)) h.

Definition setRestitution (h : Z) (v : R) : World -> World :=
  updateCollider (fun c => mkCollider (colliderHandle c) (parent c) (shape c)
                             (activeCollisionTypes c) (isSensor c) v (isEnabled c)) h.

Definition getCollider (w : World) (h : Z) : option Collider :=
  find (fun c => Z.eqb (colliderHandle c) h) (colliders w).


End Rapier.

(* ------------------------------------------------------------------ *)
(** ** JavaScript plumbing *)

(** How a call ends: with a value, or with an exception that leaves it. *)
Inductive Completion (A : Type) : Type :=
| Normal (a : A)
| Throw.

Arguments Normal {A} a.
Arguments Throw {A}.

(** [Array.prototype.pop]: the last element (none for an empty array) and
    the array that is left. *)
Definition pop {A : Type} (l : list A) : option A * list A :=
  match rev l with
  | [] => (None, [])
  | e :: r => (Some e, rev r)
  end.

(** [Array.prototype.shift] as far as the array is concerned. *)
Definition shift {A : Type} (l : list A) : list A := tl l.

(* ------------------------------------------------------------------ *)
(** ** MementoConcept.ts *)

(** The objects in the scene's [planks] array.  They are sprites to which
    the scene attaches [body] and [rotations]; [handle] and [userData] are
    whatever the object happens to carry ([None] is [undefined]). *)
Module Plank.

Record t : Type := mk {
  body : Rapier.RigidBody;
  handle : option Z;
  rotations : option (list R);
  userDataRotations : option (list R)
}.

End Plank.

Module BallState.

Record t : Type := mk { x : R; y : R; velocityX : R; velocityY : R }.

End BallState.

Module PlankState.

Record t : Type := mk { x : R; y : R; rotations : list R; handle : Z }.

End PlankState.

(** What [restoreState] and [undo] return: [{ time, angle }] or the
    sentinel [{ time: 0, handle: -1 }]. *)
Module UndoData.

Record t : Type := mk {
  time : R;
  angle : option (list R);
  handle : option Z
}.

Definition sentinel : t := mk 0 None (Some (-1)%Z).

End UndoData.

Module Memento.

(** A well-formed memento has both states; a field that is missing at run
    time is [None]. *)
Record t : Type := mk {
  ballState : option BallState.t;
  plankStates : option (list PlankState.t);
  time : R
}.

Definition constructor (ball : Rapier.RigidBody) (planks : list Plank.t) (time : R) : t :=
  mk (Some (BallState.mk (Vector2.x (Rapier.translation ball))
                         (Vector2.y (Rapier.translation ball))
                         (Vector2.x (Rapier.linvel ball))
                         (Vector2.y (Rapier.linvel ball))))
     (Some (map (fun plank =>
                   PlankState.mk
                     (Vector2.x (Rapier.translation (Plank.body plank)))
                     (Vector2.y (Rapier.translation (Plank.body plank)))
                     (match Plank.userDataRotations plank with
                      | Some rs => rs
                      | None => []
                      end ++ [Rapier.rotation (Plank.body plank)])
                     (Rapier.handle (Plank.body plank)))
                planks))
     time.

Definition getBallState (m : t) : option BallState.t := ballState m.

Definition getPlankStates (m : t) : option (list PlankState.t) := plankStates m.

Definition getLastPlankState (m : t) : option PlankState.t :=
  match plankStates m with
  | Some ps => last (map Some ps) None
  | None => None
  end.

Definition getTime (m : t) : R := time m.

End Memento.

Module Originator.

Record t : Type := mk {
  ball : Rapier.RigidBody;
  planks : list Plank.t;
  planksToRemove : list (option Z)
}.

Definition saveState (o : t) (time : R) : Memento.t :=
  Memento.constructor (ball o) (planks o) time.

(** The body of the [try] block.  What was written before an exception
    stays written, so the state comes back in either case.  [memento] is
    [None] when the caller passes [undefined]. *)
Definition restoreState_try (o : t) (memento : option Memento.t)
    (currentPlanks : list Plank.t)
  : t * list Plank.t * Completion UndoData.t :=
  match memento with
  | None => (o, currentPlanks, Throw)
  | Some m =>
    match Memento.getBallState m with
    | None => (o, currentPlanks, Throw)
    | Some ballState =>
      let ball1 := Rapier.setTranslation (ball o)
                     (Vector2.mk (BallState.x ballState) (BallState.y ballState)) in
      let ball2 := Rapier.setLinvel ball1
                     (Vector2.mk (BallState.velocityX ballState)
                                 (BallState.velocityY ballState)) in
      let o2 := mk ball2 (planks o) (planksToRemove o) in
      match Memento.getPlankStates m with
      | None => (o2, currentPlanks, Throw)
      | Some plankStates =>
        if (length plankStates <=? length currentPlanks)%nat then
          match pop currentPlanks with
          | (None, rest) => (o2, rest, Throw)
          | (Some plank, rest) =>
            (mk ball2 (planks o) (planksToRemove o ++ [Plank.handle plank]),
             rest,
             Normal (UndoData.mk (Memento.getTime m) (Plank.rotations plank) None))
          end
        else
          (o2, currentPlanks, Normal (UndoData.mk (Memento.getTime m) None None))
      end
    end
  end.

(** [restoreState]: the [catch] clause logs and falls through to the
    sentinel. *)
Definition restoreState (o : t) (memento : option Memento.t)
    (currentPlanks : list Plank.t)
  : t * list Plank.t * Completion UndoData.t :=
  match restoreState_try o memento currentPlanks with
  | (o', planks', Normal r) => (o', planks', Normal r)
  | (o', planks', Throw) => (o', planks', Normal UndoData.sentinel)
  end.

Definition getPlanksToRemove (o : t) : list (option Z) := planksToRemove o.

Definition clearPlanksToRemove (o : t) : t := mk (ball o) (planks o) [].

End Originator.

Module Caretaker.

(** [mementos] in array order: the oldest first, the newest last. *)
Record t : Type := mk {
  mementos : list Memento.t;
  originator : Originator.t
}.

Definition new (originator : Originator.t) : t := mk [] originator.

Definition ballHistory (c : t) : list (option BallState.t) :=
  map Memento.getBallState (mementos c).

Definition save (c : t) (time : R) : t :=
  let memento := Originator.saveState (originator c) time in
  let pushed := mementos c ++ [memento] in
  if (1000 <? length pushed)%nat
  then mk (shift pushed) (originator c)
  else mk pushed (originator c).

(** The [while] loop of [undo], run over the array read from its end:
    it pops until the array is empty or a memento with another number of
    planks comes up.  Reading [length] of missing plank states throws; the
    pops made until then stay made.  Returns what is left of the array
    (still newest first) and the value of [memento] on leaving the loop. *)
Fixpoint undo_loop (newestFirst : list Memento.t) (currentPlanks : list Plank.t)
  : list Memento.t * Completion (option Memento.t) :=
  match newestFirst with
  | [] => ([], Normal None)
  | memento :: older =>
    match Memento.getPlankStates memento with
    | None => (older, Throw)
    | Some plankStates =>
      if (length plankStates =? length currentPlanks)%nat
      then undo_loop older currentPlanks
      else (older, Normal (Some memento))
    end
  end.

Definition undo (c : t) (currentPlanks : list Plank.t)
  : t * list Plank.t * Completion UndoData.t :=
  if (0 <? length (mementos c))%nat then
    match undo_loop (rev (mementos c)) currentPlanks with
    | (older, Throw) => (mk (rev older) (originator c), currentPlanks, Throw)
    | (older, Normal None) =>
      (mk (rev older) (originator c), currentPlanks, Normal UndoData.sentinel)
    | (older, Normal (Some memento)) =>
      match Originator.restoreState (originator c) (Some memento) currentPlanks with
      | (o', planks', r) => (mk (rev older) o', planks', r)
      end
    end
  else (c, currentPlanks, Normal UndoData.sentinel).

Definition clearHistory (c : t) : t := mk [] (originator c).

Definition getPlanksToRemove (c : t) : list (option Z) :=
  Originator.getPlanksToRemove (originator c).

Definition clearPlanksToRemove (c : t) : t :=
  mk (mementos c) (Originator.clearPlanksToRemove (originator c)).

End Caretaker.

(* ------------------------------------------------------------------ *)
(** ** The scene (scenes/MusicMelody.ts) *)

Definition SCALE_FACTOR : R := 50.

Definition PLANK_ROTATIONS : list R :=
  [0; 15/100; -(15/100); 6/10; -(6/10); 3/10; -(3/10); 9/10; -(9/10);
   11/10; -(11/10)].

(** [array.includes(value)] on numbers. *)
Definition includes (array : list R) (value : R) : bool :=
  existsb (fun e => if Req_dec_T e value then true else false) array.

(** What the candidate loop of [placePlankForNote] computes for one angle:
    the direction (written back to [direction]), the centre and the two
    ends. *)
Module Candidate.

Record t : Type := mk {
  plankDir : Vector2.t;
  plankCenter : Vector2.t;
  plankA : Vector2.t;
  plankB : Vector2.t
}.

End Candidate.

Definition candidateFor (predictedPosition direction : Vector2.t) (angle : R)
  : Candidate.t :=
  let plankDir := Vector2.rotate direction angle in
  let plankCenter :=
    Vector2.add (Vector2.clone predictedPosition)
      (Vector2.multiply (Vector2.clone plankDir)
         (Vector2.mk (3/10 + 15/100 * 2 + 1/1000) (3/10 + 15/100 * 2 + 1/1000))) in
  let plankA :=
    Vector2.add (Vector2.clone plankCenter)
      (Vector2.multiply (Vector2.rotate (Vector2.clone plankDir) (DegToRad 90))
         (Vector2.mk (6/10) (6/10))) in
  let plankB :=
    Vector2.subtract (Vector2.clone plankCenter)
      (Vector2.multiply (Vector2.rotate (Vector2.clone plankDir) (DegToRad 90))
         (Vector2.mk (6/10) (6/10))) in
  Candidate.mk plankDir plankCenter plankA plankB.

Section Scene.

(** [world.intersectionPairsWith(collider, callback)]: the colliders the
    callback is called with. *)
Variable intersectionPairsWith : Rapier.World -> Rapier.Collider -> list Rapier.Collider.

(** The flag [intersectBall] after the callback ran over all pairs. *)
Definition intersectBall (w : Rapier.World) (collider : Rapier.Collider) : bool :=
  existsb (fun otherCollider =>
             match Rapier.shapeTypeOf (Rapier.shape otherCollider) with
             | Rapier.Ball => true
             | Rapier.Cuboid => false
             end)
          (intersectionPairsWith w collider).

(** The candidate as it is first put into the world: a fixed body with a
    sensor cuboid that only pairs with fixed bodies. *)
Definition createCandidate (w : Rapier.World) (plankCenter : Vector2.t) (angle : R)
  : Rapier.RigidBody * Rapier.Collider * Rapier.World :=
  let '(plankBody, w1) :=
    Rapier.createFixedBody w (Vector2.x plankCenter) (Vector2.y plankCenter) angle in
  let '(collider, w2) :=
    Rapier.createCollider w1 (Rapier.cuboid (6/10) (15/100)) Rapier.FIXED_FIXED
      true 0 plankBody in
  (plankBody, collider, w2).

(** Arming: what the [else] branch does to the collider. *)
Definition arm (h : Z) (w : Rapier.World) : Rapier.World :=
  Rapier.setRestitution h (11/10)
    (Rapier.setSensor h false
       (Rapier.setActiveCollisionTypes h Rapier.DYNAMIC_FIXED w)).

(** [wouldOverlapWithHistory]: [None] is the result [false], [Some body]
    the armed plank body. *)
Definition wouldOverlapWithHistory (w : Rapier.World)
    (plankA plankB plankCenter : Vector2.t) (angle : R)
  : option Rapier.RigidBody * Rapier.World :=
  let '(plankBody, collider, w2) := createCandidate w plankCenter angle in
  if intersectBall w2 collider
  then (None, Rapier.setEnabled (Rapier.colliderHandle collider) false w2)
  else (Some plankBody, arm (Rapier.colliderHandle collider) w2).

(** [isPlankSafe]; it returns [intersectBall] as it stands. *)
Definition isPlankSafe (w : Rapier.World) (plank : Rapier.Collider)
  : bool * Rapier.World :=
  if intersectBall w plank
  then (true, w)
  else (false, arm (Rapier.colliderHandle plank) w).

(** The [for] loop of [placePlankForNote] over the shuffled rotations.
    [direction] is the vector that [rotate] overwrites on every candidate
    that is not skipped.  The sprite is the plank object with [body] and
    [rotations] attached; where it is drawn is not modelled. *)
Fixpoint placeCandidates (passAngles : list R) (predictedPosition : Vector2.t)
    (rotations : list R) (direction : Vector2.t) (w : Rapier.World)
  : option Plank.t * Rapier.World :=
  match rotations with
  | [] => (None, w)
  | angle :: rest =>
    if includes passAngles angle
    then placeCandidates passAngles predictedPosition rest direction w
    else
      let c := candidateFor predictedPosition direction angle in
      match wouldOverlapWithHistory w (Candidate.plankA c) (Candidate.plankB c)
              (Candidate.plankCenter c) angle with
      | (Some newPlank, w') =>
        (Some (Plank.mk newPlank None (Some (angle :: passAngles)) None), w')
      | (None, w') =>
        placeCandidates passAngles predictedPosition rest (Candidate.plankDir c) w'
      end
  end.

(** [Phaser.Utils.Array.Shuffle], which reorders [PLANK_ROTATIONS] in
    place: what the array holds after the call with the given number. *)
Variable Shuffle : nat -> list R -> list R.

(** The fields of the scene that placement uses.  [this.planks] is the
    array the originator was built around, and [this.ball] the body it
    holds, so both are read through the caretaker; [rotations] is
    [PLANK_ROTATIONS] as the last shuffle left it. *)
Record MusicMelody : Type := mkMusicMelody {
  world : Rapier.World;
  notes : list R;
  currentNoteIndex : Z;
  caretaker : Caretaker.t;
  currentPos : Vector2.t;
  currentVelocity : Vector2.t;
  trackTime : R;
  rotations : list R;
  shuffles : nat
}.

Definition planks (s : MusicMelody) : list Plank.t :=
  Originator.planks (Caretaker.originator (caretaker s)).

Definition withPlanks (c : Caretaker.t) (ps : list Plank.t) : Caretaker.t :=
  Caretaker.mk (Caretaker.mementos c)
    (Originator.mk (Originator.ball (Caretaker.originator c)) ps
       (Originator.planksToRemove (Caretaker.originator c))).

(** [checkForNextPlank] and [placePlankForNote], which call each other.
    [fuel] bounds the depth of the calls the model follows ([None]: not
    enough); [Throw] is an exception that leaves [undo]. *)
Fixpoint checkForNextPlank (fuel : nat) (passAngles : list R) (s : MusicMelody)
  : option (Completion MusicMelody) :=
  match fuel with
  | O => None
  | S fuel' =>
    if (Z.of_nat (length (notes s)) <=? currentNoteIndex s)%Z then Some (Normal s)
    else
      match (if (currentNoteIndex s <? 0)%Z then None
             else nth_error (notes s) (Z.to_nat (currentNoteIndex s))) with
      | None => Some (Normal s)
      | Some nextNoteTime =>
        if Rge_dec (trackTime s) nextNoteTime then
          match placePlankForNote fuel' passAngles s with
          | Some (Normal s') =>
            Some (Normal
                    (mkMusicMelody (world s') (notes s') (currentNoteIndex s' + 1)
                       (caretaker s') (currentPos s') (currentVelocity s')
                       (trackTime s') (rotations s') (shuffles s')))
          | other => other
          end
        else Some (Normal s)
      end
  end

with placePlankForNote (fuel : nat) (passAngles : list R) (s : MusicMelody)
  : option (Completion MusicMelody) :=
  match fuel with
  | O => None
  | S fuel' =>
    let predictedPosition := currentPos s in
    let direction := Vector2.normalize (currentVelocity s) in
    let shuffled := Shuffle (shuffles s) (rotations s) in
    match placeCandidates passAngles predictedPosition shuffled direction (world s) with
    | (Some plankSprite, w') =>
      Some (Normal
              (mkMusicMelody w' (notes s) (currentNoteIndex s)
                 (withPlanks (caretaker s) (planks s ++ [plankSprite]))
                 (currentPos s) (currentVelocity s) (trackTime s)
                 shuffled (S (shuffles s))))
    | (None, w') =>
      match Caretaker.undo (caretaker s) (planks s) with
      | (_, _, Throw) => Some Throw
      | (c', planks', Normal undoData) =>
        checkForNextPlank fuel'
          (match UndoData.angle undoData with
           | Some angles => angles
           | None => []
           end)
          (mkMusicMelody w' (notes s) (currentNoteIndex s - 1)
             (withPlanks c' planks')
             (currentPos s) (currentVelocity s) (UndoData.time undoData)
             shuffled (S (shuffles s)))
      end
    end
  end.

End Scene.

(* ------------------------------------------------------------------ *)
(** ** The stack-based generator (.tmp/MusicMelody.ts)

    Numbers are rationals here.  The physics world, the clock, the random
    source and the renderer are the host: one state [Env] with the calls
    the generator makes on it.  [async] and [await] are read as plain
    calls, one invocation running to its end before the next starts. *)

Module Generator.

Local Open Scope Z_scope.

Definition SCALE_FACTOR : Q := 50.
Definition MIN_BOUNCE_VELOCITY : Q := 5.
Definition PLANK_ROTATIONS : list Q :=
  [0; 15#100; -(15#100); 6#10; -(6#10); 3#10; -(3#10); 9#10; -(9#10);
   11#10; -(11#10)]%Q.
Definition PLANK_HALF_LENGTH : Q := 6#10.
Definition PLANK_WIDTH : Q := 15#100.
Definition BALL_RADIUS : Q := 3#10.
Definition MAX_SIMULATION_STEPS : nat := 200.
Definition MS_PER_SIMULATION : Q := 1666#100.

(** [a < b] on numbers. *)
Definition Qlt_bool (a b : Q) : bool := negb (Qle_bool b a).

Module Vector.

Record t : Type := mk { x : Q; y : Q }.

End Vector.

(** What the generator hands to [createRigidBody]: a fixed body with a
    translation and a rotation ([None] when the angle read was
    [undefined]). *)
Module BodyDesc.

Record t : Type := mk { translation : Vector.t; rotation : option Q }.

End BodyDesc.

(** [ColliderDesc.cuboid(hx, hy).setRestitution(r)]. *)
Module ColliderDesc.

Record t : Type := mk { hx : Q; hy : Q; restitution : Q }.

End ColliderDesc.

(** [this.add.rectangle(x, y, width, height, color).setDepth(1).setRotation(angle)]. *)
Module RectangleDesc.

Record t : Type := mk {
  x : Q; y : Q; width : Q; height : Q; color : Z; rotation : option Q
}.

End RectangleDesc.

Record Host : Type := mkHost {
  Env : Type;
  world_step : Env -> Env;
  (** whether [world.contactPairsWith(ball, callback)] calls the callback *)
  ball_contact : Env -> bool;
  performance_now : Env -> Q * Env;
  Math_random : Env -> Q * Env;
  Math_PI : Q;
  ball_translation : Env -> Vector.t;
  ball_linvel : Env -> Vector.t;
  ball_setTranslation : Vector.t -> Env -> Env;
  ball_setLinvel : Vector.t -> Env -> Env;
  body_translation : Z -> Env -> Vector.t;
  body_rotation : Z -> Env -> Q;
  createRigidBody : BodyDesc.t -> Env -> Z * Env;
  createCollider : ColliderDesc.t -> Z -> Env -> Env;
  removeRigidBody : Z -> Env -> Env;
  add_rectangle : RectangleDesc.t -> Env -> Z * Env;
  sprite_destroy : Z -> Env -> Env
}.

Module Note.

Record t : Type := mk { time : Q; midi : Z }.

End Note.

(** The objects in [this.planks]. *)
Module PlankEntry.

Record t : Type := mk {
  body : Z;
  sprite : Z;
  note : option Note.t;
  angle : option Q
}.

End PlankEntry.

Module SnapshotPlank.

Record t : Type := mk {
  position : Vector.t;
  angle : Q;
  body : Z;
  sprite : Z
}.

End SnapshotPlank.

Module WorldStateSnapshot.

Record t : Type := mk {
  ballPosition : Vector.t;
  ballVelocity : Vector.t;
  planks : list SnapshotPlank.t;
  time : Q
}.

End WorldStateSnapshot.

Module StackState.

Record t : Type := mk {
  noteIndex : nat;
  rotationIndex : Z;
  rotationPermutation : list nat;
  worldState : WorldStateSnapshot.t;
  simulationSteps : Z
}.

Definition withSimulationSteps (s : t) (n : Z) : t :=
  mk (noteIndex s) (rotationIndex s) (rotationPermutation s) (worldState s) n.

Definition withRotationIndex (s : t) (i : Z) : t :=
  mk (noteIndex s) i (rotationPermutation s) (worldState s) (simulationSteps s).

Definition withRotationPermutation (s : t) (p : list nat) : t :=
  mk (noteIndex s) (rotationIndex s) p (worldState s) (simulationSteps s).

End StackState.

(** The pose [tryPlacePlank] computes before it asks whether to place. *)
Module Pose.

Record t : Type := mk {
  angle : option Q;
  plankDirection : Vector.t;
  plankCenter : Vector.t;
  plankA : Vector.t;
  plankB : Vector.t
}.

End Pose.

Section Driver.

Variable host : Host.

(** The fields of the scene the generator uses.  [stateStack] has the top
    of the stack, the last element of the array, at its head. *)
Record MusicMelody : Type := mkMusicMelody {
  ready : bool;
  env : Env host;
  notes : list Note.t;
  planks : list PlankEntry.t;
  currentNoteIndex : nat;
  startTime : Q;
  stateStack : list StackState.t;
  maxPlanksGenerated : Z;
  noImprovementCount : Z;
  isGenerating : bool
}.

Definition withEnv (m : MusicMelody) (e : Env host) : MusicMelody :=
  mkMusicMelody (ready m) e (notes m) (planks m) (currentNoteIndex m) (startTime m)
    (stateStack m) (maxPlanksGenerated m) (noImprovementCount m) (isGenerating m).

Definition withPlanks (m : MusicMelody) (p : list PlankEntry.t) : MusicMelody :=
  mkMusicMelody (ready m) (env m) (notes m) p (currentNoteIndex m) (startTime m)
    (stateStack m) (maxPlanksGenerated m) (noImprovementCount m) (isGenerating m).

Definition withStateStack (m : MusicMelody) (s : list StackState.t) : MusicMelody :=
  mkMusicMelody (ready m) (env m) (notes m) (planks m) (currentNoteIndex m)
    (startTime m) s (maxPlanksGenerated m) (noImprovementCount m) (isGenerating m).

Definition withCounters (m : MusicMelody) (maxPlanks noImprovement : Z) : MusicMelody :=
  mkMusicMelody (ready m) (env m) (notes m) (planks m) (currentNoteIndex m)
    (startTime m) (stateStack m) maxPlanks noImprovement (isGenerating m).

Definition withIsGenerating (m : MusicMelody) (g : bool) : MusicMelody :=
  mkMusicMelody (ready m) (env m) (notes m) (planks m) (currentNoteIndex m)
    (startTime m) (stateStack m) (maxPlanksGenerated m) (noImprovementCount m) g.

(** The methods the file leaves out ("previous methods remain the same",
    "helper methods remain the same").  The first two draw and play, the
    next two are vector helpers, the last one reads the scene. *)
Variable syncBallSprite : Env host -> Env host.
Variable checkBallPlankCollisions : Env host -> Env host.
Variable normalizeVector : Vector.t -> Vector.t.
Variable rotateVector : Vector.t -> option Q -> Vector.t.
Variable checkHistoricalCollisions : MusicMelody -> Vector.t -> Vector.t -> bool.

Definition saveWorldState (m : MusicMelody) : WorldStateSnapshot.t * MusicMelody :=
  let ballPosition := ball_translation host (env m) in
  let ballVelocity := ball_linvel host (env m) in
  let planks' :=
    map (fun p =>
           SnapshotPlank.mk (body_translation host (PlankEntry.body p) (env m))
             (body_rotation host (PlankEntry.body p) (env m))
             (PlankEntry.body p) (PlankEntry.sprite p))
        (planks m) in
  let '(now, e) := performance_now host (env m) in
  (WorldStateSnapshot.mk ballPosition ballVelocity planks' (now - startTime m)%Q,
   withEnv m e).

(** [this.planks.forEach(p => { removeRigidBody(p.body); p.sprite.destroy() })]. *)
Definition removePlanks (ps : list PlankEntry.t) (e : Env host) : Env host :=
  fold_left (fun e p =>
               sprite_destroy host (PlankEntry.sprite p)
                 (removeRigidBody host (PlankEntry.body p) e))
            ps e.

(** One round of [state.planks.forEach] in [restoreWorldState]. *)
Definition restorePlank (note : option Note.t) (acc : list PlankEntry.t * Env host)
    (plank : SnapshotPlank.t) : list PlankEntry.t * Env host :=
  let '(ps, e) := acc in
  let plankDesc :=
    BodyDesc.mk (Vector.mk (Vector.x (SnapshotPlank.position plank))
                           (Vector.y (SnapshotPlank.position plank)))
                (Some (SnapshotPlank.angle plank)) in
  let '(plankBody, e1) := createRigidBody host plankDesc e in
  let e2 :=
    createCollider host (ColliderDesc.mk PLANK_HALF_LENGTH PLANK_WIDTH (9#10))
      plankBody e1 in
  let '(plankSprite, e3) :=
    add_rectangle host
      (RectangleDesc.mk
         (Vector.x (SnapshotPlank.position plank) * SCALE_FACTOR)%Q
         (Vector.y (SnapshotPlank.position plank) * SCALE_FACTOR)%Q
         (PLANK_HALF_LENGTH * 2 * SCALE_FACTOR)%Q
         (PLANK_WIDTH * 2 * SCALE_FACTOR)%Q
         65280 (Some (SnapshotPlank.angle plank)))
      e2 in
  (ps ++ [PlankEntry.mk plankBody plankSprite note (Some (SnapshotPlank.angle plank))],
   e3).

Definition restoreWorldState (m : MusicMelody) (state : WorldStateSnapshot.t)
  : MusicMelody :=
  let e1 := ball_setTranslation host (WorldStateSnapshot.ballPosition state) (env m) in
  let e2 := ball_setLinvel host (WorldStateSnapshot.ballVelocity state) e1 in
  let e3 := removePlanks (planks m) e2 in
  let '(ps, e4) :=
    fold_left (restorePlank (nth_error (notes m) (currentNoteIndex m)))
      (WorldStateSnapshot.planks state) ([], e3) in
  withPlanks (withEnv m (syncBallSprite e4)) ps.

(** [[array[i], array[j]] = [array[j], array[i]]] on an array of indices,
    for [i] and [j] within the array, which is where [Math.random] in
    [0, 1) keeps them. *)
Definition swap (array : list nat) (i j : nat) : list nat :=
  let ai := nth i array 0%nat in
  let aj := nth j array 0%nat in
  map (fun k => if (k =? i)%nat then aj
                else if (k =? j)%nat then ai
                else nth k array 0%nat)
      (seq 0 (length array)).

(** The [for] loop of [getRandomPermutation], from [i] down to 1. *)
Fixpoint shuffleFrom (i : nat) (array : list nat) (e : Env host)
  : list nat * Env host :=
  match i with
  | O => (array, e)
  | S i' =>
    let '(r, e1) := Math_random host e in
    let j := Z.to_nat (Qfloor (r * inject_Z (Z.of_nat i + 1))%Q) in
    shuffleFrom i' (swap array i j) e1
  end.

Definition getRandomPermutation (n : nat) (e : Env host) : list nat * Env host :=
  let array := seq 0 n in
  shuffleFrom (length array - 1) array e.

(** The [while] loop of [simulateUntilNextNote] with [remaining] steps to
    go before [steps] reaches [MAX_SIMULATION_STEPS].  Returns the result,
    the number of steps made, the frame and the scene.  The pause every
    tenth step does nothing to the state. *)
Fixpoint simulateSteps (remaining : nat) (steps : nat) (state : StackState.t)
    (m : MusicMelody) : bool * nat * StackState.t * MusicMelody :=
  match remaining with
  | O => (true, steps, state, m)
  | S remaining' =>
    let e1 := world_step host (env m) in
    let state1 :=
      StackState.withSimulationSteps state (StackState.simulationSteps state + 1) in
    let steps1 := S steps in
    if ball_contact host e1 then (false, steps1, state1, withEnv m e1)
    else
      let '(now, e2) := performance_now host e1 in
      let currentTime := (now - startTime m)%Q in
      let m2 := withEnv m e2 in
      if match nth_error (notes m) (StackState.noteIndex state) with
         | Some note => Qle_bool (Note.time note) currentTime
         | None => false
         end
      then (true, steps1, state1, m2)
      else
        let position := ball_translation host e2 in
        if Qlt_bool (Vector.y position) (-(10)) || Qlt_bool 10 (Vector.y position)
        then (false, steps1, state1, m2)
        else simulateSteps remaining' steps1 state1 m2
  end.

Definition simulateUntilNextNote (state : StackState.t) (m : MusicMelody)
  : bool * nat * StackState.t * MusicMelody :=
  simulateSteps MAX_SIMULATION_STEPS 0 state m.

Definition plankPose (state : StackState.t) (m : MusicMelody) : Pose.t :=
  let position := ball_translation host (env m) in
  let velocity := ball_linvel host (env m) in
  let direction := normalizeVector velocity in
  let rotationIndex :=
    if StackState.rotationIndex state <? 0 then None
    else nth_error (StackState.rotationPermutation state)
           (Z.to_nat (StackState.rotationIndex state)) in
  let angle :=
    match rotationIndex with
    | Some i => nth_error PLANK_ROTATIONS i
    | None => None
    end in
  let plankDirection := rotateVector direction angle in
  let plankCenter :=
    Vector.mk
      (Vector.x position + Vector.x plankDirection
                           * (BALL_RADIUS + PLANK_WIDTH + (1#1000)))%Q
      (Vector.y position + Vector.y plankDirection
                           * (BALL_RADIUS + PLANK_WIDTH + (1#1000)))%Q in
  let perpendicular := rotateVector plankDirection (Some (Math_PI host / 2)%Q) in
  let plankA :=
    Vector.mk (Vector.x plankCenter + Vector.x perpendicular * PLANK_HALF_LENGTH)%Q
              (Vector.y plankCenter + Vector.y perpendicular * PLANK_HALF_LENGTH)%Q in
  let plankB :=
    Vector.mk (Vector.x plankCenter - Vector.x perpendicular * PLANK_HALF_LENGTH)%Q
              (Vector.y plankCenter - Vector.y perpendicular * PLANK_HALF_LENGTH)%Q in
  Pose.mk angle plankDirection plankCenter plankA plankB.

Definition tryPlacePlank (state : StackState.t) (m : MusicMelody)
  : bool * MusicMelody :=
  let pose := plankPose state m in
  if negb (checkHistoricalCollisions m (Pose.plankA pose) (Pose.plankB pose))
  then (false, m)
  else
    let plankDesc :=
      BodyDesc.mk (Vector.mk (Vector.x (Pose.plankCenter pose))
                             (Vector.y (Pose.plankCenter pose)))
                  (Pose.angle pose) in
    let '(plankBody, e1) := createRigidBody host plankDesc (env m) in
    let e2 :=
      createCollider host (ColliderDesc.mk PLANK_HALF_LENGTH PLANK_WIDTH (9#10))
        plankBody e1 in
    let '(plankSprite, e3) :=
      add_rectangle host
        (RectangleDesc.mk
           (Vector.x (Pose.plankCenter pose) * SCALE_FACTOR)%Q
           (Vector.y (Pose.plankCenter pose) * SCALE_FACTOR)%Q
           (PLANK_HALF_LENGTH * 2 * SCALE_FACTOR)%Q
           (PLANK_WIDTH * 2 * SCALE_FACTOR)%Q
           65280 (Pose.angle pose))
        e2 in
    (true,
     withPlanks (withEnv m e3)
       (planks m
        ++ [PlankEntry.mk plankBody plankSprite
              (nth_error (notes m) (StackState.noteIndex state))
              (Pose.angle pose)])).

(** [restoreWorldState(state.worldState)] once for every simulation step
    of the frame. *)
Fixpoint restoreTimes (n : nat) (m : MusicMelody) (state : WorldStateSnapshot.t)
  : MusicMelody :=
  match n with
  | O => m
  | S n' => restoreTimes n' (restoreWorldState m state) state
  end.

Definition rewindCurrentState (m : MusicMelody) : MusicMelody :=
  match stateStack m with
  | [] => m
  | state :: rest =>
    restoreTimes (Z.to_nat (StackState.simulationSteps state))
      (withStateStack m rest) (StackState.worldState state)
  end.

Definition pushNewState (m : MusicMelody) : MusicMelody :=
  let '(snapshot, m1) := saveWorldState m in
  withStateStack m1
    (StackState.mk (currentNoteIndex m + 1) (-1) [] snapshot 0 :: stateStack m1).

Definition startGeneration (m : MusicMelody) : MusicMelody :=
  let m1 := withIsGenerating m true in
  let '(snapshot, m2) := saveWorldState m1 in
  withStateStack m2 [StackState.mk 0 (-1) [] snapshot 0].

Definition startRegularGameplay (m : MusicMelody) : MusicMelody :=
  let m1 := withIsGenerating m false in
  let '(now, e) := performance_now host (env m1) in
  mkMusicMelody (ready m1) e (notes m1) (planks m1) 0 now (stateStack m1)
    (maxPlanksGenerated m1) (noImprovementCount m1) (isGenerating m1).

(** The bookkeeping at the head of a pass of the [while] loop. *)
Definition countProgress (m : MusicMelody) : MusicMelody :=
  if maxPlanksGenerated m <? Z.of_nat (length (planks m))
  then withCounters m (Z.of_nat (length (planks m))) 0
  else withCounters m (maxPlanksGenerated m) (noImprovementCount m + 1).

(** [this.planks.length > this.maxPlanksGenerated - 0.1 * this.notes.length]. *)
Definition nearBest (m : MusicMelody) : bool :=
  Qlt_bool (inject_Z (maxPlanksGenerated m)
            - (1#10) * inject_Z (Z.of_nat (length (notes m))))%Q
           (inject_Z (Z.of_nat (length (planks m)))).

(** The part of a pass from [const currentState = ...] on, for the frame
    [currentState] on top of [rest].  The flag tells whether the pass got to
    [iterations++]. *)
Definition placeOrRewind (currentState : StackState.t) (rest : list StackState.t)
    (m : MusicMelody) : MusicMelody * bool :=
  let '(simulated, state1, m1) :=
    if StackState.rotationIndex currentState =? -1 then
      let '(success, _, state', m') := simulateUntilNextNote currentState m in
      if success then
        let '(permutation, e) :=
          getRandomPermutation (length PLANK_ROTATIONS) (env m') in
        (true,
         StackState.withRotationIndex
           (StackState.withRotationPermutation state' permutation) 0,
         withEnv m' e)
      else (false, state', m')
    else (true, currentState, m) in
  if negb simulated
  then (rewindCurrentState (withStateStack m1 (state1 :: rest)), false)
  else
    let '(placed, m2) := tryPlacePlank state1 (withStateStack m1 (state1 :: rest)) in
    if negb placed then
      let state2 :=
        StackState.withRotationIndex state1 (StackState.rotationIndex state1 + 1) in
      let m3 := withStateStack m2 (state2 :: rest) in
      if Z.of_nat (length PLANK_ROTATIONS) <=? StackState.rotationIndex state2
      then (rewindCurrentState m3, false)
      else (m3, false)
    else (pushNewState m2, true).

(** One pass of the [while] loop of [generateWithBacktracking]. *)
Definition searchPass (m : MusicMelody) : MusicMelody * bool :=
  let m1 := countProgress m in
  let stuck := 2000 <? noImprovementCount m1 in
  if stuck && nearBest m1 then (rewindCurrentState m1, false)
  else
    let m2 := if stuck then withCounters m1 (Z.of_nat (length (planks m1))) 0
              else m1 in
    match stateStack m2 with
    | [] => (m2, false)
    | currentState :: rest => placeOrRewind currentState rest m2
    end.

(** The [while] loop.  [fuel] bounds the number of passes the model is
    willing to make; [None] means it was not enough.  The result carries
    the final value of [iterations] and the number of passes made. *)
Fixpoint searchLoop (fuel : nat) (iterationsPerFrame iterations : Z) (passes : nat)
    (m : MusicMelody) : option (MusicMelody * Z * nat) :=
  if (iterations <? iterationsPerFrame)
     && (0 <? Z.of_nat (length (stateStack m)))
  then
    match fuel with
    | O => None
    | S fuel' =>
      let '(m', counted) := searchPass m in
      searchLoop fuel' iterationsPerFrame
        (if counted then iterations + 1 else iterations) (S passes) m'
    end
  else Some (m, iterations, passes).

(** What follows the loop: with an empty stack the scene leaves
    generation and starts regular gameplay. *)
Definition afterLoop (m : MusicMelody) : MusicMelody :=
  if (length (stateStack m) =? 0)%nat
  then startRegularGameplay (withIsGenerating m false)
  else m.

Definition generateWithBacktracking (fuel : nat) (iterationsPerFrame : Z)
    (m : MusicMelody) : option MusicMelody :=
  match searchLoop fuel iterationsPerFrame 0 0 m with
  | Some (m', _, _) => Some (afterLoop m')
  | None => None
  end.

Definition update (fuel : nat) (m : MusicMelody) : option MusicMelody :=
  if negb (ready m) then Some m
  else if negb (isGenerating m)
  then Some (withEnv m (checkBallPlankCollisions
                          (syncBallSprite (world_step host (env m)))))
  else generateWithBacktracking fuel 20 m.

End Driver.

End Generator.
(* ------------------------------------------------------------------ *)
(** ** Vocabulary of the statements and sample data *)

(** The scene builds the originator around its own [planks] array and hands
    that same array to [undo], so a pop made by [restoreState] is seen
    through [planks] as well.  This is [restoreState] on the shared array. *)
Definition restoreShared (o : Originator.t) (memento : option Memento.t)
  : Originator.t * Completion UndoData.t :=
  match Originator.restoreState o memento (Originator.planks o) with
  | (o', planks', r) =>
    (Originator.mk (Originator.ball o') planks' (Originator.planksToRemove o'), r)
  end.

(** [memento.getPlankStates().length === currentPlanks.length], the test
    under which [undo] drops a memento and pops the next. *)
Definition skipped (currentPlanks : list Plank.t) (memento : Memento.t) : bool :=
  match Memento.getPlankStates memento with
  | Some plankStates => (length plankStates =? length currentPlanks)%nat
  | None => false
  end.

(** One step of the scene between two saves: the ball moved and planks were
    added or popped, then [save] runs. *)
Definition saveAfter (c : Caretaker.t) (step : Originator.t * R) : Caretaker.t :=
  Caretaker.save (Caretaker.mk (Caretaker.mementos c) (fst step)) (snd step).

(** Handles of the bodies behind a list of planks. *)
Definition obstacleIds (planks : list Plank.t) : list Z :=
  map (fun plank => Rapier.handle (Plank.body plank)) planks.

(** A fixed body at the origin with handle [h], and the sprite the scene
    builds around it. *)
Definition sampleBody (h : Z) : Rapier.RigidBody :=
  Rapier.mkRigidBody h Rapier.Fixed (Vector2.mk 0 0) 0 (Vector2.mk 0 0).

Definition samplePlank (h : Z) : Plank.t :=
  Plank.mk (sampleBody h) None (Some [0]) None.

Definition sampleBall : Rapier.RigidBody :=
  Rapier.mkRigidBody 0 Rapier.Dynamic (Vector2.mk 0 (-4)) 0 (Vector2.mk 2 10).

(** A world with the ball and one plank, nothing pending. *)
Definition onePlankWorld : Originator.t :=
  Originator.mk sampleBall [samplePlank 7] [].

(** The ball after [restoreState] wrote a captured ball state to it. *)
Definition ballWith (ball : Rapier.RigidBody) (ballState : BallState.t)
  : Rapier.RigidBody :=
  Rapier.setLinvel
    (Rapier.setTranslation ball
       (Vector2.mk (BallState.x ballState) (BallState.y ballState)))
    (Vector2.mk (BallState.velocityX ballState) (BallState.velocityY ballState)).

(** A snapshot whose plank states went missing. *)
Definition corruptMemento : Memento.t :=
  Memento.mk (Some (BallState.mk 1 2 3 4)) None 5.

(** A history of two snapshots, each taken with one plank alive. *)
Definition idleCaretaker : Caretaker.t :=
  Caretaker.save (Caretaker.save (Caretaker.new onePlankWorld) 16) 33.

(** Every collider of the world has a handle the world has already given
    out, so the next handle is new. *)
Definition handlesInUse (w : Rapier.World) : bool :=
  forallb (fun c => (Rapier.colliderHandle c <? Rapier.nextHandle w)%Z)
          (Rapier.colliders w).

Definition ballShaped (c : Rapier.Collider) : bool :=
  match Rapier.shapeTypeOf (Rapier.shape c) with
  | Rapier.Ball => true
  | Rapier.Cuboid => false
  end.

(** The candidate's collider once rejected, and once armed. *)
Definition rejectedCollider (h parent : Z) : Rapier.Collider :=
  Rapier.mkCollider h parent (Rapier.cuboid (6/10) (15/100)) Rapier.FIXED_FIXED
    true 0 false.

Definition armedCollider (h parent : Z) : Rapier.Collider :=
  Rapier.mkCollider h parent (Rapier.cuboid (6/10) (15/100)) Rapier.DYNAMIC_FIXED
    false (11/10) true.

(** A world as [update] leaves it: the ball (body 0, collider 1) and one
    sensor of the ball's trail (body 2, collider 3). *)
Definition ballCollider : Rapier.Collider :=
  Rapier.mkCollider 1 0 (Rapier.ball (3/10)) Rapier.DEFAULT false 1 true.

Definition trailCollider : Rapier.Collider :=
  Rapier.mkCollider 3 2 (Rapier.ball (3/10)) Rapier.FIXED_FIXED true 0 true.

Definition trailWorld : Rapier.World :=
  Rapier.mkWorld
    [sampleBall;
     Rapier.mkRigidBody 2 Rapier.Fixed (Vector2.mk 0 (-4)) 0 (Vector2.mk 0 0)]
    [ballCollider; trailCollider]
    4.

(** An engine answer in which a new collider touches the trail sensor and
    nothing else. *)
Definition touchesTrailOnly (w : Rapier.World) (c : Rapier.Collider)
  : list Rapier.Collider :=
  filter (fun other => (Rapier.colliderHandle other =? 3)%Z) (Rapier.colliders w).

(** An engine answer in which nothing touches anything. *)
Definition touchesNothing (w : Rapier.World) (c : Rapier.Collider)
  : list Rapier.Collider := [].

(** A shuffle that leaves the array as it is. *)
Definition unshuffled (call : nat) (array : list R) : list R := array.

(** The scene when the first note is due: the ball of [trailWorld] with
    its position and velocity cached, no plank yet, one snapshot in the
    history. *)
Definition firstNoteScene : MusicMelody :=
  mkMusicMelody trailWorld [2000] 0
    (Caretaker.save (Caretaker.new (Originator.mk sampleBall [] [])) 0)
    (Rapier.translation sampleBall) (Rapier.linvel sampleBall) 2000
    PLANK_ROTATIONS 0.

(** *** The generator *)

(** The one terminal state the generator has is leaving generation. *)
Inductive Mode : Type := StillGenerating | RegularGameplay.

Definition mode {host : Generator.Host} (m : Generator.MusicMelody host) : Mode :=
  if Generator.isGenerating host m then StillGenerating else RegularGameplay.


(** How many more passes a frame can take before it is popped, plus one
    for the pass that pops it; and the sum over the stack. *)
Definition frameWeight (s : Generator.StackState.t) : nat :=
  S (Z.to_nat (11 - Generator.StackState.rotationIndex s)).

Definition stackWeight (stack : list Generator.StackState.t) : nat :=
  fold_right (fun s acc => (frameWeight s + acc)%nat) 0%nat stack.

Definition passBound {host : Generator.Host} (iterationsPerFrame : Z)
    (m : Generator.MusicMelody host) : nat :=
  (14 * Z.to_nat iterationsPerFrame + stackWeight (Generator.stateStack host m))%nat.

(** A host in which nothing moves: no contacts, a clock that stands at 0, a
    ball at rest at the origin; bodies and sprites are numbered as they are
    made. *)
Definition stillHost : Generator.Host :=
  Generator.mkHost nat
    (fun e => e)
    (fun _ => false)
    (fun e => (0%Q, e))
    (fun e => (0%Q, e))
    (314 # 100)
    (fun _ => Generator.Vector.mk 0 0)
    (fun _ => Generator.Vector.mk 0 1)
    (fun _ e => e)
    (fun _ e => e)
    (fun _ _ => Generator.Vector.mk 0 0)
    (fun _ _ => 0%Q)
    (fun _ e => (Z.of_nat e, S e))
    (fun _ _ e => e)
    (fun _ e => e)
    (fun _ e => (Z.of_nat e, S e))
    (fun _ e => e).

Definition sameVector (v : Generator.Vector.t) : Generator.Vector.t := v.

Definition unrotated (v : Generator.Vector.t) (angle : option Q) : Generator.Vector.t := v.

(** A history check that turns every candidate down. *)
Definition rejectAll (m : Generator.MusicMelody stillHost)
    (plankA plankB : Generator.Vector.t) : bool := false.

(** A history check that lets a plank in only while there is none. *)
Definition acceptFirstOnly (m : Generator.MusicMelody stillHost)
    (plankA plankB : Generator.Vector.t) : bool :=
  (length (Generator.planks stillHost m) =? 0)%nat.

(** Three notes due at once, no plank, nothing on the stack. *)
Definition blankScene : Generator.MusicMelody stillHost :=
  Generator.mkMusicMelody stillHost true 0%nat
    [Generator.Note.mk 0 60; Generator.Note.mk 0 62; Generator.Note.mk 0 64]
    [] 0%nat 0%Q [] 0%Z 0%Z false.

(** The same scene with no note at all: nothing ends the simulation. *)
Definition silentScene : Generator.MusicMelody stillHost :=
  Generator.mkMusicMelody stillHost true 0%nat [] [] 0%nat 0%Q [] 0%Z 0%Z false.

Definition rootFrame : Generator.StackState.t :=
  Generator.StackState.mk 0 (-1)
    []
    (Generator.WorldStateSnapshot.mk (Generator.Vector.mk 0 0)
       (Generator.Vector.mk 0 1) [] 0)
    0.

(* ------------------------------------------------------------------ *)
(** ** More of the scene (scenes/MusicMelody.ts) *)

Definition MIN_BOUNCE_VELOCITY : R := 5.
Definition MAX_BOUNCE_VELOCITY : R := 100.

(** [this.ball] is the body the originator holds. *)
Definition ball (s : MusicMelody) : Rapier.RigidBody :=
  Originator.ball (Caretaker.originator (caretaker s)).

Definition withBall (s : MusicMelody) (b : Rapier.RigidBody) : MusicMelody :=
  mkMusicMelody (world s) (notes s) (currentNoteIndex s)
    (Caretaker.mk (Caretaker.mementos (caretaker s))
       (Originator.mk b (planks s)
          (Originator.planksToRemove (Caretaker.originator (caretaker s)))))
    (currentPos s) (currentVelocity s) (trackTime s) (rotations s) (shuffles s).

(** [ensureMinimumVelocity].  It reads the cached [currentVelocity].  At
    speed 0 the scale factor is [Infinity] and the velocity it sets is
    [0 * Infinity], which is [NaN]; no real number stands for that, so the
    result is [None] there. *)
Definition ensureMinimumVelocity (s : MusicMelody) : option MusicMelody :=
  let velocity := currentVelocity s in
  let currentSpeed := sqrt (Vector2.x velocity ^ 2 + Vector2.y velocity ^ 2) in
  if Rlt_dec currentSpeed MIN_BOUNCE_VELOCITY then
    if Req_dec_T currentSpeed 0 then None
    else
      let scaleFactor := MIN_BOUNCE_VELOCITY / currentSpeed in
      Some (withBall s
              (Rapier.setLinvel (ball s)
                 (Vector2.mk (Vector2.x velocity * scaleFactor)
                             (Vector2.y velocity * scaleFactor))))
  else Some s.

(** [ensureMaximumVelocity]; the speed it divides by is above 100. *)
Definition ensureMaximumVelocity (s : MusicMelody) : MusicMelody :=
  let velocity := currentVelocity s in
  let currentSpeed := sqrt (Vector2.x velocity ^ 2 + Vector2.y velocity ^ 2) in
  if Rgt_dec currentSpeed MAX_BOUNCE_VELOCITY then
    let scaleFactor := MAX_BOUNCE_VELOCITY / currentSpeed in
    withBall s
      (Rapier.setLinvel (ball s)
         (Vector2.mk (Vector2.x velocity * scaleFactor)
                     (Vector2.y velocity * scaleFactor)))
  else s.

(** What [getShortestDistance] reads of a [Phaser.GameObjects.Rectangle]. *)
Module Rectangle.

Record t : Type := mk {
  geomCenterX : R;
  geomCenterY : R;
  width : R;
  height : R
}.

End Rectangle.

Definition getShortestDistance (rect1 rect2 : Rectangle.t) : R :=
  let horizontalDistance :=
    Rabs (Rabs (Rectangle.geomCenterX rect1 - Rectangle.geomCenterX rect2)
          - (Rectangle.width rect1 / 2 + Rectangle.width rect2 / 2)) in
  let verticalDistance :=
    Rabs (Rabs (Rectangle.geomCenterY rect1 - Rectangle.geomCenterY rect2)
          - (Rectangle.height rect1 / 2 + Rectangle.height rect2 / 2)) in
  sqrt (horizontalDistance ^ 2 + verticalDistance ^ 2).

(** The block of [create] that makes the first note ring at least two
    seconds after the ball drops, on the note times in milliseconds as
    sorted just before.  Reading [time] of [notes[0]] throws when there is
    no note. *)
Definition delayFirstNote (notes : list R) : Completion (list R) :=
  match notes with
  | [] => Throw
  | first :: _ =>
    if Rlt_dec first 2000
    then let delay := 2000 - first in Normal (map (fun time => time + delay) notes)
    else Normal notes
  end.

(* ------------------------------------------------------------------ *)
(** ** More vocabulary *)

(** The speed of a velocity. *)
Definition speed (v : Vector2.t) : R :=
  sqrt (Vector2.x v ^ 2 + Vector2.y v ^ 2).

(** The angles of a list that are not among those passed in. *)
Definition untried (passAngles rotations : list R) : list R :=
  filter (fun angle => negb (includes passAngles angle)) rotations.

(** A memento as the constructor builds it: both states are there. *)
Definition wellFormed (memento : Memento.t) : bool :=
  match Memento.ballState memento, Memento.plankStates memento with
  | Some _, Some _ => true
  | _, _ => false
  end.

(** A history of two snapshots: one taken before the first plank, one
    with the plank of [onePlankWorld] alive. *)
Definition placedCaretaker : Caretaker.t :=
  saveAfter (Caretaker.save (Caretaker.new (Originator.mk sampleBall [] [])) 0)
    (onePlankWorld, 16).

(** What a call of the generator works for: the notes, the index of the
    current note, the start time and the two flags. *)
Definition schedule {host : Generator.Host} (m : Generator.MusicMelody host)
  : list Generator.Note.t * nat * Q * bool * bool :=
  (Generator.notes host m, Generator.currentNoteIndex host m,
   Generator.startTime host m, Generator.ready host m,
   Generator.isGenerating host m).

(** Every frame aims at note 0, as the root does, or at the note after the
    current one. *)
Definition framesAim {host : Generator.Host} (m : Generator.MusicMelody host) : Prop :=
  Forall (fun frame =>
            Generator.StackState.noteIndex frame = 0%nat
            \/ Generator.StackState.noteIndex frame
               = (Generator.currentNoteIndex host m + 1)%nat)
         (Generator.stateStack host m).

(** The two indices [[array[i], array[j]] = ...] exchanges. *)
Definition exchanged (i j k : nat) : nat :=
  if (k =? i)%nat then j else if (k =? j)%nat then i else k.

(** An array that holds each of the indices below [n] once. *)
Definition holdsEachOnce (n : nat) (array : list nat) : Prop :=
  NoDup array /\ length array = n /\ forall x, In x array -> (x < n)%nat.

(* ------------------------------------------------------------------ *)
(** * Properties *)

(** ** Point-to-segment distance *)

Section SegmentDistance.

Variables a b p : Vector2.t.

Lemma segLenSq_pos : a <> b -> 0 < segLenSq a b.
Proof.
  intros Hne. unfold segLenSq.
  destruct a as [ax ay], b as [bx by_]. simpl.
  destruct (Req_dec bx ax) as [Hx | Hx].
  - destruct (Req_dec by_ ay) as [Hy | Hy].
    + exfalso. apply Hne. now subst.
    + assert (0 < (by_ - ay) * (by_ - ay)) by (apply Rsqr_pos_lt; lra).
      pose proof (Rle_0_sqr (bx - ax)) as Hs. unfold Rsqr in Hs. lra.
  - assert (0 < (bx - ax) * (bx - ax)) by (apply Rsqr_pos_lt; lra).
    pose proof (Rle_0_sqr (by_ - ay)) as Hs. unfold Rsqr in Hs. lra.
Qed.

Lemma distance_segmentPoint_sq (s : R) :
  Vector2.distance p (segmentPoint a b s)
  = sqrt (Vector2.lengthSq (Vector2.subtract p a)
          - 2 * s * projDot a b p + s * s * segLenSq a b).
Proof.
  unfold Vector2.distance, segmentPoint, Vector2.lengthSq, Vector2.subtract,
    projDot, segLenSq. simpl. f_equal. ring.
Qed.

Lemma distance_start : Vector2.distance p a = Vector2.distance p (segmentPoint a b 0).
Proof.
  unfold Vector2.distance, segmentPoint. simpl. f_equal. ring.
Qed.

Lemma distance_end : Vector2.distance p b = Vector2.distance p (segmentPoint a b 1).
Proof.
  unfold Vector2.distance, segmentPoint. simpl. f_equal. ring.
Qed.

Lemma pointToSegmentDistance_before :
  projDot a b p <= 0 -> pointToSegmentDistance a b p = Vector2.distance p a.
Proof.
  intros H. unfold pointToSegmentDistance.
  change (Vector2.dot (Vector2.subtract (Vector2.clone p) a)
                      (Vector2.subtract (Vector2.clone b) a)) with (projDot a b p).
  destruct (Rle_dec (projDot a b p) 0); [reflexivity | contradiction].
Qed.

Lemma pointToSegmentDistance_past :
  0 < projDot a b p -> segLenSq a b <= projDot a b p ->
  pointToSegmentDistance a b p = Vector2.distance p b.
Proof.
  intros H0 H. unfold pointToSegmentDistance.
  change (Vector2.dot (Vector2.subtract (Vector2.clone p) a)
                      (Vector2.subtract (Vector2.clone b) a)) with (projDot a b p).
  change (Vector2.lengthSq (Vector2.subtract (Vector2.clone b) a)) with (segLenSq a b).
  destruct (Rle_dec (projDot a b p) 0); [lra |].
  destruct (Rge_dec (projDot a b p) (segLenSq a b)); [reflexivity | lra].
Qed.

Lemma pointToSegmentDistance_inside :
  0 < projDot a b p -> projDot a b p < segLenSq a b ->
  pointToSegmentDistance a b p
  = Vector2.distance p (segmentPoint a b (projDot a b p / segLenSq a b)).
Proof.
  intros H0 H. unfold pointToSegmentDistance.
  change (Vector2.dot (Vector2.subtract (Vector2.clone p) a)
                      (Vector2.subtract (Vector2.clone b) a)) with (projDot a b p).
  change (Vector2.lengthSq (Vector2.subtract (Vector2.clone b) a)) with (segLenSq a b).
  destruct (Rle_dec (projDot a b p) 0); [lra |].
  destruct (Rge_dec (projDot a b p) (segLenSq a b)); [lra |].
  unfold Vector2.distance, segmentPoint, Vector2.add, Vector2.scale,
    Vector2.subtract, Vector2.clone. simpl. f_equal. ring.
Qed.

End SegmentDistance.

Section SegmentMinimum.

Variables a b p : Vector2.t.
Hypothesis distinct : a <> b.

Lemma quad_at_foot (U s : R) :
  U - 2 * s * projDot a b p + s * s * segLenSq a b
  = (U - 2 * (projDot a b p / segLenSq a b) * projDot a b p
     + (projDot a b p / segLenSq a b) * (projDot a b p / segLenSq a b)
       * segLenSq a b)
    + segLenSq a b * (s - projDot a b p / segLenSq a b)
      * (s - projDot a b p / segLenSq a b).
Proof.
  assert (0 < segLenSq a b) by (apply segLenSq_pos; exact distinct).
  field. lra.
Qed.

Lemma pointToSegmentDistance_lower_bound (s : R) :
  0 <= s <= 1 ->
  pointToSegmentDistance a b p <= Vector2.distance p (segmentPoint a b s).
Proof.
  intros [Hs0 Hs1].
  set (U := Vector2.lengthSq (Vector2.subtract p a)).
  set (d := projDot a b p).
  set (L := segLenSq a b).
  assert (HL : 0 < L) by (apply segLenSq_pos; exact distinct).
  destruct (Rle_dec d 0) as [Hd | Hd].
  - rewrite pointToSegmentDistance_before by exact Hd.
    rewrite (distance_start a b p), !distance_segmentPoint_sq.
    apply sqrt_le_1_alt. fold U d L.
    assert (0 <= s * s * L) by (apply Rmult_le_pos; nra).
    nra.
  - destruct (Rle_dec L d) as [Hp | Hp].
    + rewrite pointToSegmentDistance_past by (fold d L; lra).
      rewrite (distance_end a b p), !distance_segmentPoint_sq.
      apply sqrt_le_1_alt. fold U d L.
      assert (0 <= (1 - s) * (2 * d - L * (1 + s))).
      { apply Rmult_le_pos; [lra |]. nra. }
      nra.
    + rewrite pointToSegmentDistance_inside by (fold d L; lra).
      rewrite !distance_segmentPoint_sq.
      apply sqrt_le_1_alt. fold U d L.
      unfold d, L. rewrite (quad_at_foot U s). fold d L.
      assert (0 <= L * (s - d / L) * (s - d / L)).
      { rewrite Rmult_assoc. apply Rmult_le_pos; [lra |].
        apply Rle_0_sqr. }
      lra.
Qed.

Lemma pointToSegmentDistance_attained :
  exists s, 0 <= s <= 1 /\
    pointToSegmentDistance a b p = Vector2.distance p (segmentPoint a b s).
Proof.
  set (d := projDot a b p).
  set (L := segLenSq a b).
  assert (HL : 0 < L) by (apply segLenSq_pos; exact distinct).
  destruct (Rle_dec d 0) as [Hd | Hd].
  - exists 0. split; [lra |].
    rewrite pointToSegmentDistance_before by exact Hd. apply distance_start.
  - destruct (Rle_dec L d) as [Hp | Hp].
    + exists 1. split; [lra |].
      rewrite pointToSegmentDistance_past by (fold d L; lra). apply distance_end.
    + exists (d / L). split.
      * split.
        -- apply Rlt_le, Rdiv_lt_0_compat; lra.
        -- apply Rlt_le. apply (Rmult_lt_reg_r L); [exact HL |].
           unfold Rdiv. rewrite Rmult_assoc, Rinv_l by lra. lra.
      * apply pointToSegmentDistance_inside; fold d L; lra.
Qed.

Lemma foot_distance_is_lineDistance :
  Vector2.distance p (segmentPoint a b (projDot a b p / segLenSq a b))
  = lineDistance a b p.
Proof.
  set (U := Vector2.lengthSq (Vector2.subtract p a)).
  set (d := projDot a b p).
  set (L := segLenSq a b).
  assert (HL : 0 < L) by (apply segLenSq_pos; exact distinct).
  rewrite distance_segmentPoint_sq. fold U d L.
  unfold lineDistance. fold L.
  set (c := (Vector2.x p - Vector2.x a) * (Vector2.y b - Vector2.y a)
            - (Vector2.y p - Vector2.y a) * (Vector2.x b - Vector2.x a)).
  assert (Hq : U - 2 * (d / L) * d + d / L * (d / L) * L = Rsqr c / L).
  { unfold Rsqr, c, U, d, L, projDot, segLenSq, Vector2.lengthSq, Vector2.subtract.
    simpl. field.
    fold (segLenSq a b). fold L. lra. }
  rewrite Hq. rewrite sqrt_div_alt by exact HL.
  rewrite sqrt_Rsqr_abs. reflexivity.
Qed.

End SegmentMinimum.

(** C10. For distinct endpoints [a], [b] and any point [p],
    [pointToSegmentDistance a b p] is the least distance from [p] to a point
    of the closed segment from [a] to [b] (a lower bound that is attained); it is the
    distance to [a] when the projection of [p] falls at or before [a], the
    distance to [b] when it falls at or past [b], and the distance from [p]
    to the line through [a] and [b] in between. *)
Theorem pointToSegmentDistance_minimum (a b p : Vector2.t) :
  a <> b ->
  (forall s, 0 <= s <= 1 ->
     pointToSegmentDistance a b p <= Vector2.distance p (segmentPoint a b s))
  /\ (exists s, 0 <= s <= 1 /\
        pointToSegmentDistance a b p = Vector2.distance p (segmentPoint a b s))
  /\ (projDot a b p <= 0 ->
        pointToSegmentDistance a b p = Vector2.distance p a)
  /\ (segLenSq a b <= projDot a b p ->
        pointToSegmentDistance a b p = Vector2.distance p b)
  /\ (0 < projDot a b p < segLenSq a b ->
        pointToSegmentDistance a b p = lineDistance a b p).
Proof.
  intros Hne.
  pose proof (segLenSq_pos a b Hne) as HL.
  split; [| split; [| split; [| split]]].
  - intros s Hs. now apply pointToSegmentDistance_lower_bound.
  - now apply pointToSegmentDistance_attained.
  - apply pointToSegmentDistance_before.
  - intros H. apply pointToSegmentDistance_past; lra.
  - intros [H0 H1].
    rewrite pointToSegmentDistance_inside by assumption.
    now apply foot_distance_is_lineDistance.
Qed.

(* ------------------------------------------------------------------ *)
(** ** Snapshots and history *)

Lemma pop_nil {A : Type} : pop (@nil A) = (None, []).
Proof. reflexivity. Qed.

Lemma pop_snoc {A : Type} (l : list A) (e : A) : pop (l ++ [e]) = (Some e, l).
Proof.
  unfold pop. rewrite rev_app_distr. simpl. now rewrite rev_involutive.
Qed.

Lemma pop_rest {A : Type} (l : list A) : snd (pop l) = removelast l.
Proof.
  destruct l as [| e l] using rev_ind.
  - reflexivity.
  - rewrite pop_snoc, removelast_last. reflexivity.
Qed.

Lemma tl_skipn {A : Type} (k : nat) (l : list A) : tl (skipn k l) = skipn (S k) l.
Proof.
  revert l. induction k as [| k IH]; intros [| e l]; try reflexivity.
  cbn [skipn]. apply IH.
Qed.

Lemma skipn_app_le {A : Type} (k : nat) (l1 l2 : list A) :
  (k <= length l1)%nat -> skipn k (l1 ++ l2) = skipn k l1 ++ l2.
Proof.
  intros Hk. rewrite skipn_app.
  replace (k - length l1)%nat with 0%nat by lia. reflexivity.
Qed.

Lemma fold_left_snoc {A B : Type} (f : A -> B -> A) (l : list B) (e : B) (i : A) :
  fold_left f (l ++ [e]) i = f (fold_left f l i) e.
Proof. now rewrite fold_left_app. Qed.

(** Restoring the ball from the state captured from it changes nothing. *)
Lemma ball_restored (ball : Rapier.RigidBody) :
  Rapier.setLinvel
    (Rapier.setTranslation ball
       (Vector2.mk (Vector2.x (Rapier.translation ball))
                   (Vector2.y (Rapier.translation ball))))
    (Vector2.mk (Vector2.x (Rapier.linvel ball)) (Vector2.y (Rapier.linvel ball)))
  = ball.
Proof.
  destruct ball as [h ty [tx ty'] rot [vx vy]]. reflexivity.
Qed.

(** C2, as stated, fails: restoring the snapshot just captured from a world
    with one plank leaves a world with no plank. *)
Lemma restore_of_capture_loses_plank :
  ~ (obstacleIds
       (Originator.planks
          (fst (restoreShared onePlankWorld
                  (Some (Originator.saveState onePlankWorld 0)))))
     = obstacleIds (Originator.planks onePlankWorld)).
Proof.
  unfold restoreShared, Originator.restoreState,
    Originator.restoreState_try. simpl. discriminate.
Qed.

(** C2, amended.  Restoring a snapshot captured from [S], with nothing
    changed in between, leaves the ball with the position and velocity it
    has in [S] and creates no plank; of the planks of [S] all but the last
    stay, untouched and in place; the last one, if there is one, is popped,
    its [handle] queued in [planksToRemove] and its [rotations] returned
    with the captured time; with no plank at all the call returns the
    sentinel and queues nothing. *)
Theorem restore_of_capture (S : Originator.t) (time : R) :
  let '(S', r) :=
    restoreShared S (Some (Originator.saveState S time)) in
  Originator.ball S' = Originator.ball S
  /\ Originator.planks S' = removelast (Originator.planks S)
  /\ match pop (Originator.planks S) with
     | (None, _) =>
         r = Normal UndoData.sentinel
         /\ Originator.planksToRemove S' = Originator.planksToRemove S
     | (Some plank, _) =>
         r = Normal (UndoData.mk time (Plank.rotations plank) None)
         /\ Originator.planksToRemove S'
            = Originator.planksToRemove S ++ [Plank.handle plank]
     end.
Proof.
  destruct S as [ball planks toRemove].
  unfold restoreShared, Originator.restoreState,
    Originator.restoreState_try, Originator.saveState, Memento.constructor.
  cbn [Memento.getBallState Memento.getPlankStates Memento.ballState
       Memento.plankStates Memento.getTime Memento.time
       Originator.ball Originator.planks Originator.planksToRemove
       BallState.x BallState.y BallState.velocityX BallState.velocityY].
  rewrite length_map, Nat.leb_refl, ball_restored.
  destruct planks as [| e l] using rev_ind.
  - cbn. repeat split; reflexivity.
  - rewrite pop_snoc, removelast_last. cbn. repeat split; reflexivity.
Qed.

(** C6.  Whatever the scene does between saves, after any sequence of
    saves on a new caretaker the history holds at most 1000 mementos, and
    they are the most recent ones in the order they were pushed: what was
    dropped is the oldest. *)
Theorem history_bounded_fifo (o : Originator.t) (steps : list (Originator.t * R)) :
  let c := fold_left saveAfter steps (Caretaker.new o) in
  (length (Caretaker.mementos c) <= 1000)%nat
  /\ Caretaker.mementos c
     = skipn (length steps - 1000)
         (map (fun step => Originator.saveState (fst step) (snd step)) steps).
Proof.
  induction steps as [| step steps IH] using rev_ind.
  - cbn. split; [lia | reflexivity].
  - cbv zeta in IH |- *. rewrite fold_left_snoc.
    destruct IH as [Hlen Heq].
    set (c := fold_left saveAfter steps (Caretaker.new o)) in *.
    set (f := fun step : Originator.t * R =>
                Originator.saveState (fst step) (snd step)) in *.
    unfold saveAfter, Caretaker.save.
    cbn [Caretaker.mementos Caretaker.originator].
    fold (f step).
    rewrite map_app, length_app. cbn [map length].
    assert (Hskip : length (Caretaker.mementos c)
                    = (length steps - (length steps - 1000))%nat).
    { rewrite Heq, length_skipn, length_map. reflexivity. }
    rewrite length_app. cbn [length].
    destruct (Nat.ltb_spec 1000 (length (Caretaker.mementos c) + 1)) as [Hfull | Hroom];
      cbn [Caretaker.mementos].
    + assert (Hn : (1000 <= length steps)%nat) by lia.
      unfold shift. rewrite Heq.
      rewrite <- (skipn_app_le _ (map f steps) [f step])
        by (rewrite length_map; lia).
      rewrite tl_skipn. split.
      * rewrite length_skipn, length_app, length_map. cbn [length]. lia.
      * f_equal. lia.
    + split.
      * rewrite length_app. cbn [length]. lia.
      * rewrite Heq.
        rewrite <- (skipn_app_le _ (map f steps) [f step])
          by (rewrite length_map; lia).
        f_equal. lia.
Qed.

(** C7, as stated, fails: a snapshot that lost its plank states makes
    [restoreState] return the sentinel, yet the ball has been moved. *)
Lemma restore_corrupt_moves_ball :
  snd (Originator.restoreState onePlankWorld (Some corruptMemento)
         (Originator.planks onePlankWorld))
  = Normal UndoData.sentinel
  /\ Rapier.translation
       (Originator.ball
          (fst (fst (Originator.restoreState onePlankWorld (Some corruptMemento)
                       (Originator.planks onePlankWorld)))))
     <> Rapier.translation (Originator.ball onePlankWorld).
Proof.
  split.
  - reflexivity.
  - cbn. intros H. injection H as H1 H2. lra.
Qed.

(** C7, amended.  [restoreState] never lets an exception out: it always
    returns a value.  Called without a memento, or with one that has no
    ball state, it returns the sentinel (time 0, handle -1) and changes
    nothing.  With a ball state but no plank states it returns the
    sentinel after the ball took the captured position and velocity; the
    planks and the removal list are as before.  Whenever the memento has a
    ball state, the ball ends with the captured position and velocity. *)
Theorem restoreState_contained (o : Originator.t) (memento : option Memento.t)
    (currentPlanks : list Plank.t) :
  (exists r, snd (Originator.restoreState o memento currentPlanks) = Normal r)
  /\ match memento with
     | None =>
         Originator.restoreState o memento currentPlanks
         = (o, currentPlanks, Normal UndoData.sentinel)
     | Some m =>
         match Memento.ballState m, Memento.plankStates m with
         | None, _ =>
             Originator.restoreState o memento currentPlanks
             = (o, currentPlanks, Normal UndoData.sentinel)
         | Some ballState, None =>
             Originator.restoreState o memento currentPlanks
             = (Originator.mk (ballWith (Originator.ball o) ballState)
                  (Originator.planks o) (Originator.planksToRemove o),
                currentPlanks, Normal UndoData.sentinel)
         | Some ballState, Some _ =>
             Originator.ball
               (fst (fst (Originator.restoreState o memento currentPlanks)))
             = ballWith (Originator.ball o) ballState
         end
     end.
Proof.
  unfold Originator.restoreState, Originator.restoreState_try,
    Memento.getBallState, Memento.getPlankStates, ballWith.
  destruct memento as [[[ballState |] [plankStates |] time] |]; cbn.
  - destruct (length plankStates <=? length currentPlanks)%nat.
    + destruct (pop currentPlanks) as [[plank |] rest]; cbn; eauto.
    + cbn. eauto.
  - eauto.
  - eauto.
  - eauto.
  - eauto.
Qed.

Lemma undo_loop_all_skipped (currentPlanks : list Plank.t) (l : list Memento.t) :
  forallb (skipped currentPlanks) l = true ->
  Caretaker.undo_loop l currentPlanks = ([], Normal None).
Proof.
  induction l as [| m l IH]; intros H.
  - reflexivity.
  - cbn in H. apply andb_true_iff in H. destruct H as [Hm Hl].
    unfold skipped in Hm. cbn.
    destruct (Memento.getPlankStates m) as [plankStates |]; [| discriminate].
    rewrite Hm. now apply IH.
Qed.

Lemma forallb_rev {A : Type} (f : A -> bool) (l : list A) :
  forallb f l = true -> forallb f (rev l) = true.
Proof.
  rewrite !forallb_forall. intros H e He. apply H. now apply in_rev.
Qed.

(** C9.  If the history is empty, or every stored memento was taken with
    as many planks as there are now, [undo] returns the sentinel
    (time 0, handle -1); the originator (ball and removal list) and the
    current planks are as before, and the history is empty afterwards. *)
Theorem undo_without_change (c : Caretaker.t) (currentPlanks : list Plank.t) :
  forallb (skipped currentPlanks) (Caretaker.mementos c) = true ->
  Caretaker.undo c currentPlanks
  = (Caretaker.mk [] (Caretaker.originator c), currentPlanks,
     Normal UndoData.sentinel).
Proof.
  intros H. unfold Caretaker.undo.
  destruct c as [ms o]. cbn [Caretaker.mementos Caretaker.originator] in *.
  destruct ms as [| m ms].
  - reflexivity.
  - cbn [length Nat.ltb Nat.leb].
    rewrite (undo_loop_all_skipped currentPlanks (rev (m :: ms)))
      by now apply forallb_rev.
    reflexivity.
Qed.

Lemma undo_without_change_witness :
  Caretaker.undo idleCaretaker (Originator.planks onePlankWorld)
  = (Caretaker.mk [] (Caretaker.originator idleCaretaker),
     Originator.planks onePlankWorld, Normal UndoData.sentinel).
Proof.
  apply (undo_without_change idleCaretaker (Originator.planks onePlankWorld)).
  reflexivity.
Defined.

(* ------------------------------------------------------------------ *)
(** ** The validity oracle *)

Section Oracle.

Variable intersectionPairsWith : Rapier.World -> Rapier.Collider -> list Rapier.Collider.

Lemma updateCollider_new (f : Rapier.Collider -> Rapier.Collider)
    (bodies : list Rapier.RigidBody) (old : list Rapier.Collider)
    (c : Rapier.Collider) (next : Z) :
  forallb (fun o => (Rapier.colliderHandle o <? Rapier.colliderHandle c)%Z) old = true ->
  Rapier.updateCollider f (Rapier.colliderHandle c)
    (Rapier.mkWorld bodies (old ++ [c]) next)
  = Rapier.mkWorld bodies (old ++ [f c]) next.
Proof.
  intros Hold. unfold Rapier.updateCollider. cbn [Rapier.bodies Rapier.colliders Rapier.nextHandle].
  f_equal. rewrite map_app. cbn [map]. rewrite Z.eqb_refl. f_equal.
  rewrite forallb_forall in Hold.
  rewrite <- (map_id old) at 2. apply map_ext_in.
  intros o Ho. specialize (Hold o Ho).
  destruct (Z.eqb_spec (Rapier.colliderHandle o) (Rapier.colliderHandle c)); [lia | reflexivity].
Qed.

Lemma handlesInUse_older (w : Rapier.World) (k : Z) :
  handlesInUse w = true -> (0 <= k)%Z ->
  forallb (fun o => (Rapier.colliderHandle o <? Rapier.nextHandle w + k)%Z)
          (Rapier.colliders w) = true.
Proof.
  unfold handlesInUse. rewrite !forallb_forall. intros H Hk o Ho.
  specialize (H o Ho). lia.
Qed.

(** What [wouldOverlapWithHistory] leaves behind, by the answer of the
    engine. *)
Lemma wouldOverlapWithHistory_world (w : Rapier.World)
    (plankA plankB plankCenter : Vector2.t) (angle : R) :
  handlesInUse w = true ->
  let plankBody :=
    Rapier.mkRigidBody (Rapier.nextHandle w) Rapier.Fixed
      (Vector2.mk (Vector2.x plankCenter) (Vector2.y plankCenter)) angle
      (Vector2.mk 0 0) in
  let h := (Rapier.nextHandle w + 1)%Z in
  let w2 := snd (createCandidate w plankCenter angle) in
  let collider := snd (fst (createCandidate w plankCenter angle)) in
  wouldOverlapWithHistory intersectionPairsWith w plankA plankB plankCenter angle
  = if intersectBall intersectionPairsWith w2 collider
    then (None,
          Rapier.mkWorld (Rapier.bodies w ++ [plankBody])
            (Rapier.colliders w ++ [rejectedCollider h (Rapier.nextHandle w)])
            (Rapier.nextHandle w + 1 + 1))
    else (Some plankBody,
          Rapier.mkWorld (Rapier.bodies w ++ [plankBody])
            (Rapier.colliders w ++ [armedCollider h (Rapier.nextHandle w)])
            (Rapier.nextHandle w + 1 + 1)).
Proof.
  intros Hw. cbv zeta.
  unfold wouldOverlapWithHistory, createCandidate, Rapier.createFixedBody,
    Rapier.createCollider.
  cbn [Rapier.bodies Rapier.colliders Rapier.nextHandle Rapier.handle fst snd
       Rapier.colliderHandle].
  pose proof (handlesInUse_older w 1 Hw ltac:(lia)) as Hold.
  destruct (intersectBall _ _ _).
  - f_equal. unfold Rapier.setEnabled.
    now rewrite (updateCollider_new _ _ _
      (Rapier.mkCollider (Rapier.nextHandle w + 1) (Rapier.nextHandle w)
         (Rapier.cuboid (6/10) (15/100)) Rapier.FIXED_FIXED true 0 true)).
  - f_equal. unfold arm, Rapier.setRestitution, Rapier.setSensor,
      Rapier.setActiveCollisionTypes.
    rewrite (updateCollider_new _ _ _
      (Rapier.mkCollider (Rapier.nextHandle w + 1) (Rapier.nextHandle w)
         (Rapier.cuboid (6/10) (15/100)) Rapier.FIXED_FIXED true 0 true))
      by exact Hold.
    cbn [Rapier.colliderHandle Rapier.parent Rapier.shape Rapier.activeCollisionTypes
         Rapier.isSensor Rapier.restitution Rapier.isEnabled].
    rewrite (updateCollider_new _ _ _
      (Rapier.mkCollider (Rapier.nextHandle w + 1) (Rapier.nextHandle w)
         (Rapier.cuboid (6/10) (15/100)) Rapier.DYNAMIC_FIXED true 0 true))
      by exact Hold.
    cbn [Rapier.colliderHandle Rapier.parent Rapier.shape Rapier.activeCollisionTypes
         Rapier.isSensor Rapier.restitution Rapier.isEnabled].
    now rewrite (updateCollider_new _ _ _
      (Rapier.mkCollider (Rapier.nextHandle w + 1) (Rapier.nextHandle w)
         (Rapier.cuboid (6/10) (15/100)) Rapier.DYNAMIC_FIXED false 0 true)).
Qed.

Lemma handlesInUse_after (w : Rapier.World) (bodies : list Rapier.RigidBody)
    (c : Rapier.Collider) :
  handlesInUse w = true ->
  Rapier.colliderHandle c = (Rapier.nextHandle w + 1)%Z ->
  handlesInUse (Rapier.mkWorld bodies (Rapier.colliders w ++ [c])
                  (Rapier.nextHandle w + 1 + 1)) = true.
Proof.
  intros Hw Hc. unfold handlesInUse.
  cbn [Rapier.colliders Rapier.nextHandle].
  rewrite forallb_app. apply andb_true_iff. split.
  - replace (Rapier.nextHandle w + 1 + 1)%Z with (Rapier.nextHandle w + 2)%Z by lia.
    apply handlesInUse_older; [exact Hw | lia].
  - cbn. rewrite Hc. rewrite andb_true_r. lia.
Qed.



End Oracle.



(* ------------------------------------------------------------------ *)
(** ** The generator *)

Section GeneratorFacts.

Variable host : Generator.Host.
Variable syncBallSprite : Generator.Env host -> Generator.Env host.
Variable checkBallPlankCollisions : Generator.Env host -> Generator.Env host.
Variable normalizeVector : Generator.Vector.t -> Generator.Vector.t.
Variable rotateVector : Generator.Vector.t -> option Q -> Generator.Vector.t.
Variable checkHistoricalCollisions :
  Generator.MusicMelody host -> Generator.Vector.t -> Generator.Vector.t -> bool.


(** *** Forward simulation *)




(** *** What the pieces of a pass do to the stack *)

Lemma restoreWorldState_stack (m : Generator.MusicMelody host)
    (snapshot : Generator.WorldStateSnapshot.t) :
  Generator.stateStack host (Generator.restoreWorldState host syncBallSprite m snapshot)
  = Generator.stateStack host m.
Proof.
  unfold Generator.restoreWorldState.
  destruct (fold_left _ _ _) as [ps e4]. reflexivity.
Qed.

Lemma restoreTimes_stack (n : nat) :
  forall (m : Generator.MusicMelody host) (snapshot : Generator.WorldStateSnapshot.t),
  Generator.stateStack host (Generator.restoreTimes host syncBallSprite n m snapshot)
  = Generator.stateStack host m.
Proof.
  induction n as [| n IH]; intros m snapshot.
  - reflexivity.
  - cbn [Generator.restoreTimes]. rewrite IH. apply restoreWorldState_stack.
Qed.

Lemma rewindCurrentState_stack (m : Generator.MusicMelody host) :
  Generator.stateStack host (Generator.rewindCurrentState host syncBallSprite m)
  = tl (Generator.stateStack host m).
Proof.
  unfold Generator.rewindCurrentState.
  destruct (Generator.stateStack host m) as [| state rest] eqn:Hstack.
  - now rewrite Hstack.
  - rewrite restoreTimes_stack. reflexivity.
Qed.

Lemma tryPlacePlank_stack (state : Generator.StackState.t) (m : Generator.MusicMelody host) :
  Generator.stateStack host
    (snd (Generator.tryPlacePlank host normalizeVector rotateVector
            checkHistoricalCollisions state m))
  = Generator.stateStack host m.
Proof.
  unfold Generator.tryPlacePlank.
  destruct (negb _); [reflexivity |].
  destruct (Generator.createRigidBody host _ _) as [plankBody e1].
  destruct (Generator.add_rectangle host _ _) as [plankSprite e3].
  reflexivity.
Qed.

Lemma pushNewState_stack (m : Generator.MusicMelody host) :
  exists snapshot,
    Generator.stateStack host (Generator.pushNewState host m)
    = Generator.StackState.mk (Generator.currentNoteIndex host m + 1) (-1) []
        snapshot 0
      :: Generator.stateStack host m.
Proof.
  unfold Generator.pushNewState, Generator.saveWorldState.
  destruct (Generator.performance_now host _) as [now e].
  eexists. reflexivity.
Qed.

Lemma simulateSteps_frame (remaining : nat) :
  forall (steps : nat) (state : Generator.StackState.t) (m : Generator.MusicMelody host),
  let '(_, _, state', m') :=
    Generator.simulateSteps host remaining steps state m in
  Generator.StackState.rotationIndex state' = Generator.StackState.rotationIndex state
  /\ Generator.stateStack host m' = Generator.stateStack host m.
Proof.
  induction remaining as [| remaining IH]; intros steps state m.
  - cbn. split; reflexivity.
  - cbn [Generator.simulateSteps].
    destruct (Generator.ball_contact host _); [split; reflexivity |].
    destruct (Generator.performance_now host _) as [now e2].
    destruct (match nth_error _ _ with Some _ => _ | None => _ end);
      [split; reflexivity |].
    destruct (_ || _); [split; reflexivity |].
    specialize (IH (S steps)
      (Generator.StackState.withSimulationSteps state
         (Generator.StackState.simulationSteps state + 1))
      (Generator.withEnv host m e2)).
    destruct (Generator.simulateSteps host remaining _ _ _) as [[[ok steps'] state'] m'].
    exact IH.
Qed.

Lemma frameWeight_pos (s : Generator.StackState.t) : (1 <= frameWeight s)%nat.
Proof. unfold frameWeight. lia. Qed.

Lemma stackWeight_cons (s : Generator.StackState.t) (l : list Generator.StackState.t) :
  stackWeight (s :: l) = (frameWeight s + stackWeight l)%nat.
Proof. reflexivity. Qed.

(** A pass that gets to [iterations++] has pushed one frame; any other pass
    has brought the stack closer to empty. *)
Lemma placeOrRewind_weight (currentState : Generator.StackState.t)
    (rest : list Generator.StackState.t) (m : Generator.MusicMelody host) :
  let '(m', counted) :=
    Generator.placeOrRewind host syncBallSprite normalizeVector rotateVector
      checkHistoricalCollisions currentState rest m in
  if counted
  then (stackWeight (Generator.stateStack host m')
        <= 13 + (frameWeight currentState + stackWeight rest))%nat
  else (stackWeight (Generator.stateStack host m')
        < frameWeight currentState + stackWeight rest)%nat.
Proof.
  pose proof (frameWeight_pos currentState) as Hpos.
  unfold Generator.placeOrRewind.
  assert (Hplace : forall (state1 : Generator.StackState.t) (m1 : Generator.MusicMelody host),
    (Generator.StackState.rotationIndex state1
       = Generator.StackState.rotationIndex currentState
     \/ (Generator.StackState.rotationIndex currentState = -1
         /\ Generator.StackState.rotationIndex state1 = 0))%Z ->
    let '(m', counted) :=
      (let '(placed, m2) :=
         Generator.tryPlacePlank host normalizeVector rotateVector
           checkHistoricalCollisions state1
           (Generator.withStateStack host m1 (state1 :: rest)) in
       if negb placed then
         let state2 :=
           Generator.StackState.withRotationIndex state1
             (Generator.StackState.rotationIndex state1 + 1) in
         let m3 := Generator.withStateStack host m2 (state2 :: rest) in
         if (Z.of_nat (length Generator.PLANK_ROTATIONS)
             <=? Generator.StackState.rotationIndex state2)%Z
         then (Generator.rewindCurrentState host syncBallSprite m3, false)
         else (m3, false)
       else (Generator.pushNewState host m2, true)) in
    if counted
    then (stackWeight (Generator.stateStack host m')
          <= 13 + (frameWeight currentState + stackWeight rest))%nat
    else (stackWeight (Generator.stateStack host m')
          < frameWeight currentState + stackWeight rest)%nat).
  { intros state1 m1 Hri.
    pose proof (tryPlacePlank_stack state1
                  (Generator.withStateStack host m1 (state1 :: rest))) as Hstack.
    destruct (Generator.tryPlacePlank host normalizeVector rotateVector
                checkHistoricalCollisions state1 _) as [placed m2].
    cbn [snd Generator.stateStack Generator.withStateStack] in Hstack.
    destruct placed; cbn [negb].
    - destruct (pushNewState_stack m2) as [snapshot Hpush].
      rewrite Hpush, Hstack, !stackWeight_cons.
      unfold frameWeight. cbn [Generator.StackState.rotationIndex]. lia.
    - cbv zeta.
      change (Z.of_nat (length Generator.PLANK_ROTATIONS)) with 11%Z.
      cbn [Generator.StackState.rotationIndex Generator.StackState.withRotationIndex].
      destruct (Z.leb_spec 11 (Generator.StackState.rotationIndex state1 + 1)) as [Hge | Hlt].
      + rewrite rewindCurrentState_stack. cbn [Generator.stateStack Generator.withStateStack tl].
        lia.
      + cbn [Generator.stateStack Generator.withStateStack].
        rewrite stackWeight_cons. unfold frameWeight.
        cbn [Generator.StackState.rotationIndex Generator.StackState.withRotationIndex].
        lia. }
  destruct (Z.eqb_spec (Generator.StackState.rotationIndex currentState) (-1)) as [Hneg | Hset].
  - unfold Generator.simulateUntilNextNote.
    pose proof (simulateSteps_frame Generator.MAX_SIMULATION_STEPS 0 currentState m)
      as Hframe.
    destruct (Generator.simulateSteps host _ _ _ _) as [[[success steps'] state'] m'].
    destruct Hframe as [Hri _].
    destruct success.
    + destruct (Generator.getRandomPermutation host _ _) as [permutation e].
      cbn [negb]. apply Hplace. right. split; [exact Hneg | reflexivity].
    + cbn [negb]. rewrite rewindCurrentState_stack.
      cbn [Generator.stateStack Generator.withStateStack tl]. lia.
  - cbn [negb]. apply Hplace. now left.
Qed.

Lemma searchPass_weight (m : Generator.MusicMelody host) :
  Generator.stateStack host m <> [] ->
  let '(m', counted) :=
    Generator.searchPass host syncBallSprite normalizeVector rotateVector
      checkHistoricalCollisions m in
  if counted
  then (stackWeight (Generator.stateStack host m')
        <= 13 + stackWeight (Generator.stateStack host m))%nat
  else (stackWeight (Generator.stateStack host m')
        < stackWeight (Generator.stateStack host m))%nat.
Proof.
  intros Hne. unfold Generator.searchPass.
  set (m1 := Generator.countProgress host m).
  assert (H1 : Generator.stateStack host m1 = Generator.stateStack host m).
  { unfold m1, Generator.countProgress. destruct (_ <? _)%Z; reflexivity. }
  destruct (Generator.stateStack host m) as [| currentState rest] eqn:Hstack;
    [contradiction |].
  pose proof (frameWeight_pos currentState) as Hpos.
  destruct ((2000 <? Generator.noImprovementCount host m1)%Z) eqn:Hstuck;
    cbn [andb].
  - destruct (Generator.nearBest host m1).
    + rewrite rewindCurrentState_stack, H1, stackWeight_cons. cbn [tl]. lia.
    + cbn [Generator.stateStack Generator.withCounters]. rewrite H1, stackWeight_cons.
      apply placeOrRewind_weight.
  - rewrite H1, stackWeight_cons. apply placeOrRewind_weight.
Qed.

Lemma stackWeight_zero (l : list Generator.StackState.t) :
  stackWeight l = 0%nat -> l = [].
Proof.
  destruct l as [| s l]; [reflexivity |].
  rewrite stackWeight_cons. pose proof (frameWeight_pos s). lia.
Qed.

(** The loop ends, and within the potential it starts with. *)
Lemma searchLoop_ends (fuel : nat) :
  forall (n iterations : Z) (passes : nat) (m : Generator.MusicMelody host),
  (14 * Z.to_nat (n - iterations) + stackWeight (Generator.stateStack host m)
   <= fuel)%nat ->
  exists m' iterations' passes',
    Generator.searchLoop host syncBallSprite normalizeVector rotateVector
      checkHistoricalCollisions fuel n iterations passes m
    = Some (m', iterations', passes')
    /\ (iterations <= iterations' <= Z.max iterations n)%Z
    /\ (passes <= passes'
        <= passes + (14 * Z.to_nat (n - iterations)
                     + stackWeight (Generator.stateStack host m)))%nat.
Proof.
  induction fuel as [| fuel IH]; intros n iterations passes m Hfuel.
  - assert (Hempty : Generator.stateStack host m = [])
      by (apply stackWeight_zero; lia).
    cbn [Generator.searchLoop]. rewrite Hempty. cbn [length Z.of_nat Z.ltb].
    rewrite andb_false_r. exists m, iterations, passes.
    split; [reflexivity |]. split; lia.
  - cbn [Generator.searchLoop].
    destruct (Z.ltb_spec iterations n) as [Hlt | Hge]; cbn [andb].
    + destruct (Generator.stateStack host m) as [| top rest] eqn:Hstack.
      * cbn [length Z.of_nat Z.ltb Z.compare].
        exists m, iterations, passes.
        split; [reflexivity |]. split; lia.
      * assert (Hne : Generator.stateStack host m <> [])
          by (rewrite Hstack; discriminate).
        pose proof (searchPass_weight m Hne) as Hpass.
        replace ((0 <? Z.of_nat (length (top :: rest)))%Z) with true
          by (symmetry; apply Z.ltb_lt; cbn [length]; lia).
        destruct (Generator.searchPass host syncBallSprite normalizeVector
                    rotateVector checkHistoricalCollisions m) as [m1 counted].
        rewrite Hstack in Hpass.
        destruct counted.
        -- destruct (IH n (iterations + 1)%Z (S passes) m1) as (m' & i' & p' & Hrun & Hi & Hp).
           { replace (Z.to_nat (n - (iterations + 1)))
               with (Z.to_nat (n - iterations) - 1)%nat by lia.
             assert (1 <= Z.to_nat (n - iterations))%nat by lia. lia. }
           exists m', i', p'. split; [exact Hrun |]. split; [lia |].
           replace (Z.to_nat (n - (iterations + 1)))
             with (Z.to_nat (n - iterations) - 1)%nat in Hp by lia.
           assert (1 <= Z.to_nat (n - iterations))%nat by lia. lia.
        -- destruct (IH n iterations (S passes) m1) as (m' & i' & p' & Hrun & Hi & Hp).
           { lia. }
           exists m', i', p'. split; [exact Hrun |]. split; lia.
    + exists m, iterations, passes. split; [reflexivity |]. split; lia.
Qed.

(** One call of the driver with a budget of [n] (20 from [update]) ends,
    whatever the host answers; when it ends [iterations], which counts only
    the passes that placed a plank and pushed a frame, is at most [n].  The
    number of all passes is bounded by 14 for each unit of budget plus, for
    each frame on the stack, the rotations it has left and one more. *)
Theorem budget_counts_placements (n : Z) (fuel : nat) (m : Generator.MusicMelody host) :
  (0 <= n)%Z ->
  (passBound n m <= fuel)%nat ->
  exists m' iterations passes,
    Generator.searchLoop host syncBallSprite normalizeVector rotateVector
      checkHistoricalCollisions fuel n 0 0 m
    = Some (m', iterations, passes)
    /\ (0 <= iterations <= n)%Z
    /\ (passes <= passBound n m)%nat
    /\ Generator.generateWithBacktracking host syncBallSprite normalizeVector
         rotateVector checkHistoricalCollisions fuel n m
       = Some (Generator.afterLoop host m').
Proof.
  intros Hn Hfuel. unfold passBound in *.
  destruct (searchLoop_ends fuel n 0 0 m) as (m' & i' & p' & Hrun & Hi & Hp).
  { now rewrite Z.sub_0_r. }
  rewrite Z.sub_0_r in Hp.
  exists m', i', p'. split; [exact Hrun |]. split; [lia |]. split; [lia |].
  unfold Generator.generateWithBacktracking. now rewrite Hrun.
Qed.

(** *** The end of the search *)

(** C3, amended.  When the pop made by [rewindCurrentState] leaves the
    stack empty, the loop stops there, and what follows the loop clears
    [isGenerating] and calls [startRegularGameplay]: the scene is in
    regular gameplay with the note index back at 0.  The generator has no
    other terminal outcome. *)
Theorem last_frame_popped_hands_off (m : Generator.MusicMelody host)
    (frame : Generator.StackState.t) (fuel : nat) (n iterations : Z) (passes : nat) :
  Generator.stateStack host m = [frame] ->
  let popped := Generator.rewindCurrentState host syncBallSprite m in
  Generator.stateStack host popped = []
  /\ Generator.searchLoop host syncBallSprite normalizeVector rotateVector
       checkHistoricalCollisions fuel n iterations passes popped
     = Some (popped, iterations, passes)
  /\ Generator.afterLoop host popped
     = Generator.startRegularGameplay host (Generator.withIsGenerating host popped false)
  /\ mode (Generator.afterLoop host popped) = RegularGameplay
  /\ Generator.currentNoteIndex host (Generator.afterLoop host popped) = 0%nat.
Proof.
  intros Hstack. cbv zeta.
  assert (Hempty : Generator.stateStack host
                     (Generator.rewindCurrentState host syncBallSprite m) = [])
    by (rewrite rewindCurrentState_stack, Hstack; reflexivity).
  set (popped := Generator.rewindCurrentState host syncBallSprite m) in *.
  assert (Hafter : Generator.afterLoop host popped
                   = Generator.startRegularGameplay host
                       (Generator.withIsGenerating host popped false)).
  { unfold Generator.afterLoop. now rewrite Hempty. }
  split; [exact Hempty |]. split.
  - destruct fuel; cbn [Generator.searchLoop]; rewrite Hempty;
      cbn [length Z.of_nat Z.ltb]; now rewrite andb_false_r.
  - split; [exact Hafter |]. rewrite Hafter.
    unfold mode, Generator.startRegularGameplay.
    destruct (Generator.performance_now host _) as [now e].
    split; reflexivity.
Qed.

End GeneratorFacts.


(** C8.  The budget is meant to bound the passes of one call, but a pass
    that ends in [continue] skips [iterations++]: with a history check that
    lets only the first plank in, one call with budget 20 on a new search
    makes 23 passes through the loop, of which one is counted. *)
Lemma one_call_makes_23_passes :
  match Generator.searchLoop stillHost (fun e => e) sameVector unrotated
          acceptFirstOnly 100 20 0 0
          (Generator.startGeneration stillHost blankScene) with
  | Some (_, iterations, passes) =>
      iterations = 1%Z /\ passes = 23%nat /\ (20 < passes)%nat
  | None => False
  end.
Proof.
  vm_compute. split; [reflexivity |]. split; [reflexivity |]. repeat constructor.
Qed.

(** C3, as stated, fails: when every candidate is turned down the root
    frame is popped, the stack is empty, and the call ends in regular
    gameplay with no plank placed. *)
Lemma all_rejected_ends_in_regular_gameplay :
  option_map
    (fun m => (mode m, length (Generator.planks stillHost m),
               length (Generator.stateStack stillHost m)))
    (Generator.generateWithBacktracking stillHost (fun e => e) sameVector unrotated
       rejectAll 100 20 (Generator.startGeneration stillHost blankScene))
  = Some (RegularGameplay, 0%nat, 0%nat).
Proof.
  vm_compute. reflexivity.
Qed.

Lemma last_frame_popped_hands_off_witness :
  mode (Generator.afterLoop stillHost
          (Generator.rewindCurrentState stillHost (fun e => e)
             (Generator.startGeneration stillHost blankScene)))
  = RegularGameplay.
Proof.
  exact (proj1 (proj2 (proj2 (proj2
    (last_frame_popped_hands_off stillHost (fun e => e) sameVector unrotated
       rejectAll (Generator.startGeneration stillHost blankScene)
       rootFrame 0 20 0 0 eq_refl))))).
Defined.

(* ------------------------------------------------------------------ *)
(** ** Candidate poses *)

Lemma DegToRad_90 : DegToRad 90 = PI / 2.
Proof. unfold DegToRad. field. Qed.

Lemma rotate_quarter (v : Vector2.t) :
  Vector2.rotate v (PI / 2) = Vector2.mk (- Vector2.y v) (Vector2.x v).
Proof.
  unfold Vector2.rotate. cbv zeta. rewrite cos_PI2, sin_PI2. f_equal; ring.
Qed.




(** The loop over the rotations turns [direction] itself on every
    candidate: the second candidate of a call is placed along the velocity
    direction turned by both angles. *)
Lemma second_candidate_direction (predictedPosition direction : Vector2.t)
    (first second : R) :
  Candidate.plankDir
    (candidateFor predictedPosition
       (Candidate.plankDir (candidateFor predictedPosition direction first)) second)
  = Vector2.rotate (Vector2.rotate direction first) second.
Proof. reflexivity. Qed.




Lemma pointToSegmentDistance_minimum_witness :
  Vector2.mk 0 0 <> Vector2.mk 2 0
  /\ pointToSegmentDistance (Vector2.mk 0 0) (Vector2.mk 2 0) (Vector2.mk 1 1)
     = lineDistance (Vector2.mk 0 0) (Vector2.mk 2 0) (Vector2.mk 1 1).
Proof.
  assert (Hne : Vector2.mk 0 0 <> Vector2.mk 2 0).
  { intros H. injection H as H. lra. }
  split; [exact Hne |].
  apply (pointToSegmentDistance_minimum (Vector2.mk 0 0) (Vector2.mk 2 0)
           (Vector2.mk 1 1) Hne).
  unfold projDot, segLenSq. cbn [Vector2.x Vector2.y]. lra.
Defined.

(* ------------------------------------------------------------------ *)
(** * Further properties *)

(** ** Distances *)

Lemma distance_nonneg (p q : Vector2.t) : 0 <= Vector2.distance p q.
Proof. unfold Vector2.distance. apply sqrt_pos. Qed.

Lemma distance_zero (p q : Vector2.t) : Vector2.distance p q = 0 -> p = q.
Proof.
  destruct p as [px py], q as [qx qy]. unfold Vector2.distance.
  cbn [Vector2.x Vector2.y]. intros H.
  apply sqrt_eq_0 in H.
  - apply (Rplus_sqr_eq_0 (qx - px) (qy - py)) in H.
    destruct H as [Hx Hy]. f_equal; lra.
  - pose proof (Rle_0_sqr (qx - px)) as Hx. pose proof (Rle_0_sqr (qy - py)) as Hy.
    unfold Rsqr in Hx, Hy. lra.
Qed.

Lemma distance_self (p : Vector2.t) : Vector2.distance p p = 0.
Proof.
  unfold Vector2.distance. cbv zeta.
  replace ((Vector2.x p - Vector2.x p) * (Vector2.x p - Vector2.x p)
           + (Vector2.y p - Vector2.y p) * (Vector2.y p - Vector2.y p))
    with 0 by ring.
  apply sqrt_0.
Qed.

Lemma pointToSegmentDistance_point (a p : Vector2.t) :
  pointToSegmentDistance a a p = Vector2.distance p a.
Proof.
  apply pointToSegmentDistance_before. unfold projDot.
  replace ((Vector2.x p - Vector2.x a) * (Vector2.x a - Vector2.x a)
           + (Vector2.y p - Vector2.y a) * (Vector2.y a - Vector2.y a))
    with 0 by ring.
  lra.
Qed.

Lemma segmentPoint_reverse (a b : Vector2.t) (s : R) :
  segmentPoint b a s = segmentPoint a b (1 - s).
Proof. unfold segmentPoint. f_equal; ring. Qed.

Lemma pointToSegmentDistance_le_reverse (a b p : Vector2.t) :
  a <> b -> pointToSegmentDistance a b p <= pointToSegmentDistance b a p.
Proof.
  intros Hne.
  destruct (pointToSegmentDistance_attained b a p) as (s & Hs & Heq).
  { intros H. apply Hne. now symmetry. }
  rewrite Heq, segmentPoint_reverse.
  apply pointToSegmentDistance_lower_bound; [exact Hne | lra].
Qed.

(** X1.  [pointToSegmentDistance] does not depend on which end of the
    segment is given first, and for a segment of length zero it is the
    distance to its single point. *)
Theorem pointToSegmentDistance_symmetric (a b p : Vector2.t) :
  pointToSegmentDistance a b p = pointToSegmentDistance b a p
  /\ pointToSegmentDistance a a p = Vector2.distance p a.
Proof.
  split; [| apply pointToSegmentDistance_point].
  destruct (Req_dec_T (Vector2.x a) (Vector2.x b)) as [Hx | Hx].
  - destruct (Req_dec_T (Vector2.y a) (Vector2.y b)) as [Hy | Hy].
    + destruct a as [ax ay], b as [bx by_]. cbn in Hx, Hy. now subst.
    + apply Rle_antisym; apply pointToSegmentDistance_le_reverse;
        intros H; apply Hy; now rewrite H.
  - apply Rle_antisym; apply pointToSegmentDistance_le_reverse;
      intros H; apply Hx; now rewrite H.
Qed.

Lemma pointToSegmentDistance_nonneg (a b p : Vector2.t) :
  0 <= pointToSegmentDistance a b p.
Proof.
  unfold pointToSegmentDistance.
  destruct (Rle_dec _ _); [apply distance_nonneg |].
  destruct (Rge_dec _ _); apply distance_nonneg.
Qed.

(** X2.  [pointToSegmentDistance] is never negative, and it is 0 exactly
    when the point lies on the closed segment. *)
Theorem pointToSegmentDistance_zero_iff (a b p : Vector2.t) :
  0 <= pointToSegmentDistance a b p
  /\ (pointToSegmentDistance a b p = 0
      <-> exists s, 0 <= s <= 1 /\ p = segmentPoint a b s).
Proof.
  split; [apply pointToSegmentDistance_nonneg |].
  assert (Hcases : a = b \/ a <> b).
  { destruct (Req_dec_T (Vector2.x a) (Vector2.x b)) as [Hx | Hx];
      [destruct (Req_dec_T (Vector2.y a) (Vector2.y b)) as [Hy | Hy] |].
    - left. destruct a, b. cbn in Hx, Hy. now subst.
    - right. intros H. apply Hy. now rewrite H.
    - right. intros H. apply Hx. now rewrite H. }
  destruct Hcases as [Heq | Hne].
  - subst b. rewrite pointToSegmentDistance_point. split.
    + intros H. exists 0. split; [lra |].
      apply distance_zero in H. subst p. unfold segmentPoint.
      destruct a as [ax ay]. cbn [Vector2.x Vector2.y]. f_equal; ring.
    + intros (s & _ & Hp). subst p.
      replace (segmentPoint a a s) with a; [apply distance_self |].
      unfold segmentPoint. destruct a as [ax ay]. cbn [Vector2.x Vector2.y].
      f_equal; ring.
  - split.
    + intros H.
      destruct (pointToSegmentDistance_attained a b p Hne) as (s & Hs & Hd).
      exists s. split; [exact Hs |]. apply distance_zero. now rewrite <- Hd.
    + intros (s & Hs & Hp).
      apply Rle_antisym; [| apply pointToSegmentDistance_nonneg].
      replace 0 with (Vector2.distance p (segmentPoint a b s))
        by (rewrite <- Hp; apply distance_self).
      now apply pointToSegmentDistance_lower_bound.
Qed.

Lemma pointToSegmentDistance_zero_iff_witness :
  pointToSegmentDistance (Vector2.mk 0 0) (Vector2.mk 2 0) (Vector2.mk 1 0) = 0.
Proof.
  apply (proj2 (pointToSegmentDistance_zero_iff (Vector2.mk 0 0) (Vector2.mk 2 0)
                  (Vector2.mk 1 0))).
  exists (1 / 2). split; [lra |].
  unfold segmentPoint. cbn [Vector2.x Vector2.y]. f_equal; lra.
Defined.

(** ** Where candidates are put *)

Lemma lengthSq_rotate (v : Vector2.t) (angle : R) :
  Vector2.lengthSq (Vector2.rotate v angle) = Vector2.lengthSq v.
Proof.
  unfold Vector2.lengthSq, Vector2.rotate. cbv zeta. cbn [Vector2.x Vector2.y].
  pose proof (sin2_cos2 angle) as H. unfold Rsqr in H.
  replace ((cos angle * Vector2.x v - sin angle * Vector2.y v)
           * (cos angle * Vector2.x v - sin angle * Vector2.y v)
           + (sin angle * Vector2.x v + cos angle * Vector2.y v)
             * (sin angle * Vector2.x v + cos angle * Vector2.y v))
    with ((sin angle * sin angle + cos angle * cos angle)
          * (Vector2.x v * Vector2.x v + Vector2.y v * Vector2.y v)) by ring.
  rewrite H. ring.
Qed.

Lemma lengthSq_normalize (v : Vector2.t) :
  0 < Vector2.lengthSq v -> Vector2.lengthSq (Vector2.normalize v) = 1.
Proof.
  unfold Vector2.lengthSq, Vector2.normalize. intros Hpos. cbv zeta.
  destruct (Rlt_dec 0 (Vector2.x v * Vector2.x v + Vector2.y v * Vector2.y v))
    as [_ | H]; [| contradiction].
  cbn [Vector2.x Vector2.y].
  set (len := Vector2.x v * Vector2.x v + Vector2.y v * Vector2.y v) in *.
  assert (Hs : 0 < sqrt len) by now apply sqrt_lt_R0.
  assert (Hss : sqrt len * sqrt len = len) by (apply sqrt_sqrt; lra).
  transitivity ((Vector2.x v * Vector2.x v + Vector2.y v * Vector2.y v)
                / (sqrt len * sqrt len)).
  - field. lra.
  - fold len. rewrite Hss. field. lra.
Qed.

Lemma sqrt_scaled_unit (k dx dy : R) :
  0 <= k -> dx * dx + dy * dy = 1 ->
  sqrt (dx * k * (dx * k) + dy * k * (dy * k)) = k.
Proof.
  intros Hk Hunit.
  replace (dx * k * (dx * k) + dy * k * (dy * k))
    with ((dx * dx + dy * dy) * (k * k)) by ring.
  rewrite Hunit, Rmult_1_l. now apply sqrt_square.
Qed.

Lemma candidateFor_unit (predictedPosition direction : Vector2.t) (angle : R) :
  Vector2.lengthSq direction = 1 ->
  let c := candidateFor predictedPosition direction angle in
  Vector2.lengthSq (Candidate.plankDir c) = 1
  /\ Vector2.distance predictedPosition (Candidate.plankCenter c) = 601 / 1000
  /\ Vector2.distance (Candidate.plankA c) (Candidate.plankB c) = 12 / 10
  /\ Vector2.x (Candidate.plankCenter c)
     = (Vector2.x (Candidate.plankA c) + Vector2.x (Candidate.plankB c)) / 2
  /\ Vector2.y (Candidate.plankCenter c)
     = (Vector2.y (Candidate.plankA c) + Vector2.y (Candidate.plankB c)) / 2.
Proof.
  intros Hunit. cbv zeta.
  assert (Hd : Vector2.lengthSq (Vector2.rotate direction angle) = 1)
    by now rewrite lengthSq_rotate.
  unfold candidateFor. cbv zeta.
  cbn [Candidate.plankDir Candidate.plankCenter Candidate.plankA Candidate.plankB].
  set (d := Vector2.rotate direction angle) in *.
  unfold Vector2.clone. rewrite DegToRad_90, !rotate_quarter.
  unfold Vector2.lengthSq in Hd.
  unfold Vector2.distance, Vector2.add, Vector2.subtract, Vector2.multiply.
  cbv zeta. cbn [Vector2.x Vector2.y].
  split; [exact Hd |]. split; [| split; [| split; field]].
  - replace (Vector2.x predictedPosition
             + Vector2.x d * (3 / 10 + 15 / 100 * 2 + 1 / 1000)
             - Vector2.x predictedPosition)
      with (Vector2.x d * (601 / 1000)) by field.
    replace (Vector2.y predictedPosition
             + Vector2.y d * (3 / 10 + 15 / 100 * 2 + 1 / 1000)
             - Vector2.y predictedPosition)
      with (Vector2.y d * (601 / 1000)) by field.
    apply sqrt_scaled_unit; [lra | exact Hd].
  - match goal with
    | |- sqrt ?e = _ =>
        replace e with (Vector2.y d * (12 / 10) * (Vector2.y d * (12 / 10))
                        + Vector2.x d * (12 / 10) * (Vector2.x d * (12 / 10)))
          by field
    end.
    apply sqrt_scaled_unit; [lra | lra].
Qed.

(** X3.  With a direction of length 1 the candidate's own direction has
    length 1 again, its centre lies 0.601 from the ball position whatever
    the angle, the two ends are 1.2 apart and the centre is half way
    between them. *)
Theorem candidate_geometry (predictedPosition direction : Vector2.t) (angle : R) :
  Vector2.lengthSq direction = 1 ->
  let c := candidateFor predictedPosition direction angle in
  Vector2.lengthSq (Candidate.plankDir c) = 1
  /\ Vector2.distance predictedPosition (Candidate.plankCenter c) = 601 / 1000
  /\ Vector2.distance (Candidate.plankA c) (Candidate.plankB c) = 12 / 10
  /\ Vector2.x (Candidate.plankCenter c)
     = (Vector2.x (Candidate.plankA c) + Vector2.x (Candidate.plankB c)) / 2
  /\ Vector2.y (Candidate.plankCenter c)
     = (Vector2.y (Candidate.plankA c) + Vector2.y (Candidate.plankB c)) / 2.
Proof. exact (candidateFor_unit predictedPosition direction angle). Qed.

Lemma candidate_geometry_witness :
  Vector2.distance (Vector2.mk 0 (-4))
    (Candidate.plankCenter (candidateFor (Vector2.mk 0 (-4)) (Vector2.mk 1 0) (3 / 10)))
  = 601 / 1000.
Proof.
  apply (candidate_geometry (Vector2.mk 0 (-4)) (Vector2.mk 1 0) (3 / 10)).
  unfold Vector2.lengthSq. cbn [Vector2.x Vector2.y]. lra.
Defined.

Section PlacementLoop.

Variable intersectionPairsWith : Rapier.World -> Rapier.Collider -> list Rapier.Collider.

Lemma wouldOverlapWithHistory_body (w w' : Rapier.World)
    (plankA plankB plankCenter : Vector2.t) (angle : R) (newPlank : Rapier.RigidBody) :
  wouldOverlapWithHistory intersectionPairsWith w plankA plankB plankCenter angle
  = (Some newPlank, w') ->
  Rapier.translation newPlank
  = Vector2.mk (Vector2.x plankCenter) (Vector2.y plankCenter)
  /\ Rapier.rotation newPlank = angle.
Proof.
  unfold wouldOverlapWithHistory, createCandidate, Rapier.createFixedBody,
    Rapier.createCollider.
  destruct (intersectBall _ _ _); [discriminate |].
  intros H. injection H as Hbody _. subst newPlank. split; reflexivity.
Qed.

Lemma placeCandidates_unit (passAngles : list R) (predictedPosition : Vector2.t)
    (rotations : list R) :
  forall (direction : Vector2.t) (w w' : Rapier.World) (plank : Plank.t),
  Vector2.lengthSq direction = 1 ->
  placeCandidates intersectionPairsWith passAngles predictedPosition rotations
    direction w = (Some plank, w') ->
  Vector2.distance predictedPosition (Rapier.translation (Plank.body plank))
  = 601 / 1000
  /\ In (Rapier.rotation (Plank.body plank)) rotations
  /\ includes passAngles (Rapier.rotation (Plank.body plank)) = false
  /\ Plank.rotations plank
     = Some (Rapier.rotation (Plank.body plank) :: passAngles).
Proof.
  induction rotations as [| angle rest IH]; intros direction w w' plank Hunit Hrun.
  - discriminate.
  - cbn [placeCandidates] in Hrun.
    destruct (includes passAngles angle) eqn:Hinc.
    + destruct (IH _ _ _ _ Hunit Hrun) as (Hd & Hin & Hrest).
      split; [exact Hd |]. split; [now right | exact Hrest].
    + destruct (candidateFor_unit predictedPosition direction angle Hunit)
        as (Hdir & Hcenter & _).
      set (c := candidateFor predictedPosition direction angle) in *.
      destruct (wouldOverlapWithHistory intersectionPairsWith w (Candidate.plankA c)
                  (Candidate.plankB c) (Candidate.plankCenter c) angle)
        as [[newPlank |] w1] eqn:Hov.
      * injection Hrun as Hplank Hworld. subst plank.
        destruct (wouldOverlapWithHistory_body _ _ _ _ _ _ _ Hov) as [Htr Hrot].
        cbn [Plank.body Plank.rotations]. rewrite Htr, Hrot.
        split.
        { rewrite <- Hcenter. unfold Vector2.distance. reflexivity. }
        split; [now left |]. split; [exact Hinc | reflexivity].
      * destruct (IH _ _ _ _ Hdir Hrun) as (Hd & Hin & Hrest).
        split; [exact Hd |]. split; [now right | exact Hrest].
Qed.

(** X4.  While the ball moves, every plank the loop of [placePlankForNote]
    commits has its body 0.601 from the ball position, turned by one of the
    angles on offer that was not among the angles passed in, and carries
    that angle followed by the angles passed in as its [rotations]. *)
Theorem committed_plank_placement (passAngles : list R)
    (predictedPosition currentVelocity : Vector2.t) (rotations : list R)
    (w w' : Rapier.World) (plank : Plank.t) :
  0 < Vector2.lengthSq currentVelocity ->
  placeCandidates intersectionPairsWith passAngles predictedPosition rotations
    (Vector2.normalize currentVelocity) w = (Some plank, w') ->
  Vector2.distance predictedPosition (Rapier.translation (Plank.body plank))
  = 601 / 1000
  /\ In (Rapier.rotation (Plank.body plank)) rotations
  /\ includes passAngles (Rapier.rotation (Plank.body plank)) = false
  /\ Plank.rotations plank
     = Some (Rapier.rotation (Plank.body plank) :: passAngles).
Proof.
  intros Hmoving. apply placeCandidates_unit. now apply lengthSq_normalize.
Qed.

(** X5.  If every angle on offer is among the angles passed in, the loop
    tries no candidate: it returns nothing and leaves the world as it
    is. *)
Theorem nothing_left_to_try (passAngles : list R) (predictedPosition : Vector2.t)
    (rotations : list R) (direction : Vector2.t) (w : Rapier.World) :
  forallb (includes passAngles) rotations = true ->
  placeCandidates intersectionPairsWith passAngles predictedPosition rotations
    direction w = (None, w).
Proof.
  induction rotations as [| angle rest IH]; intros Hall.
  - reflexivity.
  - cbn [forallb] in Hall. apply andb_true_iff in Hall. destruct Hall as [Ha Hrest].
    cbn [placeCandidates]. rewrite Ha. now apply IH.
Qed.

End PlacementLoop.

Lemma committed_plank_placement_witness :
  match fst (placeCandidates touchesNothing [] (Vector2.mk 0 (-4)) [3 / 10]
               (Vector2.normalize (Vector2.mk 2 10)) trailWorld) with
  | Some plank =>
      Vector2.distance (Vector2.mk 0 (-4)) (Rapier.translation (Plank.body plank))
      = 601 / 1000
  | None => False
  end.
Proof.
  refine (proj1 (committed_plank_placement touchesNothing [] (Vector2.mk 0 (-4))
            (Vector2.mk 2 10) [3 / 10] trailWorld _ _ _ eq_refl)).
  unfold Vector2.lengthSq. cbn [Vector2.x Vector2.y]. lra.
Defined.

Lemma nothing_left_to_try_witness :
  placeCandidates touchesNothing [3 / 10] (Vector2.mk 0 (-4)) [3 / 10]
    (Vector2.mk 1 0) trailWorld
  = (None, trailWorld).
Proof.
  apply (nothing_left_to_try touchesNothing [3 / 10] (Vector2.mk 0 (-4)) [3 / 10]
           (Vector2.mk 1 0) trailWorld).
  unfold includes. cbn [forallb existsb].
  destruct (Req_dec_T (3 / 10) (3 / 10)) as [_ | Hne]; [reflexivity | now elim Hne].
Defined.

(** X6.  A ball at rest gives no direction: every candidate then has its
    centre and both ends on the ball position itself. *)
Theorem resting_ball_candidate (predictedPosition currentVelocity : Vector2.t)
    (angle : R) :
  Vector2.lengthSq currentVelocity = 0 ->
  let c :=
    candidateFor predictedPosition (Vector2.normalize currentVelocity) angle in
  Vector2.distance predictedPosition (Candidate.plankCenter c) = 0
  /\ Vector2.distance predictedPosition (Candidate.plankA c) = 0
  /\ Vector2.distance predictedPosition (Candidate.plankB c) = 0.
Proof.
  intros Hrest. cbv zeta.
  assert (Hzero : Vector2.x currentVelocity = 0 /\ Vector2.y currentVelocity = 0).
  { apply Rplus_sqr_eq_0. exact Hrest. }
  destruct Hzero as [Hx Hy].
  assert (Hn : Vector2.normalize currentVelocity = Vector2.mk 0 0).
  { unfold Vector2.normalize. cbv zeta. unfold Vector2.lengthSq in Hrest.
    rewrite Hrest. destruct (Rlt_dec 0 0) as [H | _]; [lra |].
    destruct currentVelocity as [vx vy]. cbn in Hx, Hy. now subst. }
  rewrite Hn. unfold candidateFor. cbv zeta.
  cbn [Candidate.plankCenter Candidate.plankA Candidate.plankB].
  unfold Vector2.clone. rewrite DegToRad_90, !rotate_quarter.
  unfold Vector2.distance, Vector2.add, Vector2.subtract, Vector2.multiply,
    Vector2.rotate.
  cbv zeta. cbn [Vector2.x Vector2.y].
  repeat split;
    match goal with
    | |- sqrt ?e = 0 => replace e with 0 by ring; apply sqrt_0
    end.
Qed.

Lemma resting_ball_candidate_witness :
  Vector2.distance (Vector2.mk 0 (-4))
    (Candidate.plankCenter
       (candidateFor (Vector2.mk 0 (-4)) (Vector2.normalize (Vector2.mk 0 0)) (3 / 10)))
  = 0.
Proof.
  apply (resting_ball_candidate (Vector2.mk 0 (-4)) (Vector2.mk 0 0) (3 / 10)).
  unfold Vector2.lengthSq. cbn [Vector2.x Vector2.y]. ring.
Defined.

Section Litter.

Variable intersectionPairsWith : Rapier.World -> Rapier.Collider -> list Rapier.Collider.

(** X7.  When the loop of [placePlankForNote] finds no place, every
    candidate it tried stays in the world: one more body and one more
    collider for each angle that was not passed in, the collider disabled
    and still a sensor; what was in the world before is untouched. *)
Theorem failed_placement_leaves_sensors (passAngles : list R)
    (predictedPosition : Vector2.t) (rotations : list R) :
  forall (direction : Vector2.t) (w w' : Rapier.World),
  handlesInUse w = true ->
  placeCandidates intersectionPairsWith passAngles predictedPosition rotations
    direction w = (None, w') ->
  exists rejected,
    Rapier.colliders w' = Rapier.colliders w ++ rejected
    /\ length rejected = length (untried passAngles rotations)
    /\ Forall (fun c => Rapier.isEnabled c = false /\ Rapier.isSensor c = true)
         rejected
    /\ length (Rapier.bodies w')
       = (length (Rapier.bodies w) + length rejected)%nat.
Proof.
  induction rotations as [| angle rest IH]; intros direction w w' Hw Hrun.
  - injection Hrun as Hworld. subst w'. exists []. rewrite app_nil_r.
    repeat split; [constructor | cbn; lia].
  - cbn [placeCandidates] in Hrun. unfold untried. cbn [filter].
    fold (untried passAngles rest).
    destruct (includes passAngles angle) eqn:Hinc; cbn [negb].
    + now apply (IH direction).
    + set (c := candidateFor predictedPosition direction angle) in *.
      rewrite (wouldOverlapWithHistory_world intersectionPairsWith w _ _ _ _ Hw)
        in Hrun.
      destruct (intersectBall _ _ _); [| discriminate].
      match type of Hrun with
      | placeCandidates _ _ _ _ _ ?w1 = _ =>
          assert (Hw1 : handlesInUse w1 = true)
            by (now apply handlesInUse_after);
          destruct (IH _ _ _ Hw1 Hrun) as (rejected & Hcol & Hlen & Hall & Hbodies)
      end.
      cbn [Rapier.colliders Rapier.bodies] in Hcol, Hbodies.
      eexists (_ :: rejected). split; [| split; [| split]].
      * rewrite Hcol, <- app_assoc. reflexivity.
      * cbn [length]. now rewrite Hlen.
      * constructor; [split; reflexivity | exact Hall].
      * rewrite Hbodies, length_app. cbn [length]. lia.
Qed.

Lemma updateCollider_at (f : Rapier.Collider -> Rapier.Collider)
    (bodies : list Rapier.RigidBody) (before after : list Rapier.Collider)
    (c : Rapier.Collider) (next : Z) :
  forallb (fun o => negb (Rapier.colliderHandle o =? Rapier.colliderHandle c)%Z)
          (before ++ after) = true ->
  Rapier.updateCollider f (Rapier.colliderHandle c)
    (Rapier.mkWorld bodies (before ++ c :: after) next)
  = Rapier.mkWorld bodies (before ++ f c :: after) next.
Proof.
  intros Hothers. unfold Rapier.updateCollider.
  cbn [Rapier.bodies Rapier.colliders Rapier.nextHandle]. f_equal.
  rewrite forallb_app in Hothers. apply andb_true_iff in Hothers.
  destruct Hothers as [Hb Ha]. rewrite forallb_forall in Hb, Ha.
  rewrite map_app. cbn [map]. rewrite Z.eqb_refl. f_equal; [| f_equal].
  - rewrite <- (map_id before) at 2. apply map_ext_in. intros o Ho.
    specialize (Hb o Ho). now destruct (Rapier.colliderHandle o =? _)%Z.
  - rewrite <- (map_id after) at 2. apply map_ext_in. intros o Ho.
    specialize (Ha o Ho). now destruct (Rapier.colliderHandle o =? _)%Z.
Qed.

(** X8.  [isPlankSafe] returns [true] exactly when the engine reports a
    ball shape touching the plank, and then changes nothing; when it
    returns [false] it has armed the plank (sensor off, dynamic-fixed
    pairs, restitution 1.1) and left every other collider alone. *)
Theorem isPlankSafe_reports_overlap (bodies : list Rapier.RigidBody)
    (before after : list Rapier.Collider) (plank : Rapier.Collider) (next : Z) :
  forallb (fun o => negb (Rapier.colliderHandle o =? Rapier.colliderHandle plank)%Z)
          (before ++ after) = true ->
  let w := Rapier.mkWorld bodies (before ++ plank :: after) next in
  isPlankSafe intersectionPairsWith w plank
  = if existsb ballShaped (intersectionPairsWith w plank)
    then (true, w)
    else (false,
          Rapier.mkWorld bodies
            (before
             ++ Rapier.mkCollider (Rapier.colliderHandle plank) (Rapier.parent plank)
                  (Rapier.shape plank) Rapier.DYNAMIC_FIXED false (11 / 10)
                  (Rapier.isEnabled plank)
             :: after)
            next).
Proof.
  intros Hothers. cbv zeta. unfold isPlankSafe, intersectBall.
  change (fun otherCollider : Rapier.Collider =>
            match Rapier.shapeTypeOf (Rapier.shape otherCollider) with
            | Rapier.Ball => true
            | Rapier.Cuboid => false
            end) with ballShaped.
  destruct (existsb ballShaped _); [reflexivity |].
  f_equal. unfold arm, Rapier.setRestitution, Rapier.setSensor,
    Rapier.setActiveCollisionTypes.
  rewrite (updateCollider_at _ _ _ _ plank) by exact Hothers.
  match goal with
  | |- context [Rapier.updateCollider _ _ (Rapier.mkWorld _ (_ ++ ?c1 :: _) _)] =>
      change (Rapier.colliderHandle plank) with (Rapier.colliderHandle c1) at 1 2;
      rewrite (updateCollider_at _ _ _ _ c1) by exact Hothers
  end.
  match goal with
  | |- context [Rapier.updateCollider _ _ (Rapier.mkWorld _ (_ ++ ?c2 :: _) _)] =>
      change (Rapier.colliderHandle plank) with (Rapier.colliderHandle c2) at 1;
      rewrite (updateCollider_at _ _ _ _ c2) by exact Hothers
  end.
  reflexivity.
Qed.

End Litter.

Lemma failed_placement_leaves_sensors_witness :
  exists rejected,
    Rapier.colliders
      (snd (placeCandidates touchesTrailOnly [] (Vector2.mk 0 (-4)) [3 / 10]
              (Vector2.mk 1 0) trailWorld))
    = Rapier.colliders trailWorld ++ rejected
    /\ length rejected = length (untried [] [3 / 10])
    /\ Forall (fun c => Rapier.isEnabled c = false /\ Rapier.isSensor c = true)
         rejected
    /\ length (Rapier.bodies
                 (snd (placeCandidates touchesTrailOnly [] (Vector2.mk 0 (-4))
                         [3 / 10] (Vector2.mk 1 0) trailWorld)))
       = (length (Rapier.bodies trailWorld) + length rejected)%nat.
Proof.
  apply (failed_placement_leaves_sensors touchesTrailOnly [] (Vector2.mk 0 (-4))
           [3 / 10] (Vector2.mk 1 0) trailWorld); reflexivity.
Defined.

Lemma isPlankSafe_reports_overlap_witness :
  isPlankSafe touchesNothing
    (Rapier.mkWorld [sampleBall]
       ([ballCollider; trailCollider] ++ rejectedCollider 5 4 :: []) 6)
    (rejectedCollider 5 4)
  = (false,
     Rapier.mkWorld [sampleBall]
       ([ballCollider; trailCollider]
        ++ Rapier.mkCollider 5 4 (Rapier.cuboid (6 / 10) (15 / 100))
             Rapier.DYNAMIC_FIXED false (11 / 10) false
        :: [])
       6).
Proof.
  apply (isPlankSafe_reports_overlap touchesNothing [sampleBall]
           [ballCollider; trailCollider] [] (rejectedCollider 5 4) 6).
  reflexivity.
Defined.

(** ** Speed limits *)

Lemma speed_scaled (v : Vector2.t) (k : R) :
  0 <= k ->
  speed (Vector2.mk (Vector2.x v * k) (Vector2.y v * k)) = k * speed v.
Proof.
  intros Hk. unfold speed. cbn [Vector2.x Vector2.y].
  replace ((Vector2.x v * k) ^ 2 + (Vector2.y v * k) ^ 2)
    with (k * k * (Vector2.x v ^ 2 + Vector2.y v ^ 2)) by ring.
  rewrite sqrt_mult_alt by nra. now rewrite sqrt_square.
Qed.

Lemma speed_nonneg (v : Vector2.t) : 0 <= speed v.
Proof. unfold speed. apply sqrt_pos. Qed.

(** X9.  [ensureMinimumVelocity] leaves the scene alone when the cached
    speed is 5 or more; below 5 it gives the ball the cached velocity
    scaled up to speed exactly 5, same direction; and at speed 0 there is
    no velocity it could set. *)
Theorem ensureMinimumVelocity_speed (s : MusicMelody) :
  match ensureMinimumVelocity s with
  | None => speed (currentVelocity s) = 0
  | Some s' =>
      if Rlt_dec (speed (currentVelocity s)) 5
      then Rapier.linvel (ball s')
           = Vector2.scale (currentVelocity s) (5 / speed (currentVelocity s))
           /\ speed (Rapier.linvel (ball s')) = 5
           /\ Rapier.translation (ball s') = Rapier.translation (ball s)
           /\ planks s' = planks s
      else s' = s
  end.
Proof.
  unfold ensureMinimumVelocity, MIN_BOUNCE_VELOCITY. cbv zeta.
  fold (speed (currentVelocity s)).
  pose proof (speed_nonneg (currentVelocity s)) as Hpos.
  destruct (Rlt_dec (speed (currentVelocity s)) 5) as [Hslow | Hfast].
  - destruct (Req_dec_T (speed (currentVelocity s)) 0) as [Hzero | Hmoving];
      [exact Hzero |].
    destruct (Rlt_dec (speed (currentVelocity s)) 5); [| contradiction].
    cbn [ball withBall caretaker Caretaker.originator Originator.ball
         Rapier.linvel Rapier.setLinvel Rapier.translation planks
         Originator.planks].
    split; [reflexivity |]. split; [| split; reflexivity].
    rewrite speed_scaled.
    + field. exact Hmoving.
    + apply Rlt_le, Rdiv_lt_0_compat; lra.
  - destruct (Rlt_dec (speed (currentVelocity s)) 5); [contradiction | reflexivity].
Qed.

(** X10.  [ensureMaximumVelocity] leaves the scene alone when the cached
    speed is 100 or less; above 100 it gives the ball the cached velocity
    scaled down to speed exactly 100, same direction. *)
Theorem ensureMaximumVelocity_speed (s : MusicMelody) :
  if Rgt_dec (speed (currentVelocity s)) 100
  then Rapier.linvel (ball (ensureMaximumVelocity s))
       = Vector2.scale (currentVelocity s) (100 / speed (currentVelocity s))
       /\ speed (Rapier.linvel (ball (ensureMaximumVelocity s))) = 100
       /\ Rapier.translation (ball (ensureMaximumVelocity s))
          = Rapier.translation (ball s)
       /\ planks (ensureMaximumVelocity s) = planks s
  else ensureMaximumVelocity s = s.
Proof.
  unfold ensureMaximumVelocity, MAX_BOUNCE_VELOCITY. cbv zeta.
  fold (speed (currentVelocity s)).
  destruct (Rgt_dec (speed (currentVelocity s)) 100) as [Hfast | Hslow];
    [| reflexivity].
  cbn [ball withBall caretaker Caretaker.originator Originator.ball
       Rapier.linvel Rapier.setLinvel Rapier.translation planks
       Originator.planks].
  split; [reflexivity |]. split; [| split; reflexivity].
  rewrite speed_scaled.
  - field. lra.
  - apply Rlt_le, Rdiv_lt_0_compat; lra.
Qed.

(** ** Rectangles *)

(** X11.  [getShortestDistance] is not negative and the same in both
    orders of its arguments; for a rectangle and itself it is the length of
    the rectangle's diagonal, not 0. *)
Theorem getShortestDistance_symmetric (rect1 rect2 : Rectangle.t) :
  0 <= getShortestDistance rect1 rect2
  /\ getShortestDistance rect1 rect2 = getShortestDistance rect2 rect1
  /\ getShortestDistance rect1 rect1
     = sqrt (Rectangle.width rect1 ^ 2 + Rectangle.height rect1 ^ 2).
Proof.
  unfold getShortestDistance. cbv zeta. split; [apply sqrt_pos |]. split.
  - rewrite (Rabs_minus_sym (Rectangle.geomCenterX rect1)),
      (Rabs_minus_sym (Rectangle.geomCenterY rect1)),
      (Rplus_comm (Rectangle.width rect1 / 2)),
      (Rplus_comm (Rectangle.height rect1 / 2)).
    reflexivity.
  - rewrite !pow2_abs. f_equal.
    replace (Rectangle.geomCenterX rect1 - Rectangle.geomCenterX rect1) with 0 by ring.
    replace (Rectangle.geomCenterY rect1 - Rectangle.geomCenterY rect1) with 0 by ring.
    rewrite Rabs_R0. field.
Qed.

(** ** The note schedule *)

(** X12.  On note times of which the first is the least, as they are after
    sorting, the delay block of [create] fails only on an empty schedule;
    otherwise every time it leaves is at least 2000 ms, and all times were
    moved by the same amount, which is not negative. *)
Theorem delayFirstNote_two_seconds (notes : list R) :
  Forall (fun time => hd 0 notes <= time) notes ->
  match delayFirstNote notes with
  | Throw => notes = []
  | Normal delayed =>
      Forall (fun time => 2000 <= time) delayed
      /\ exists delay, 0 <= delay /\ delayed = map (fun time => time + delay) notes
  end.
Proof.
  intros Hsorted. destruct notes as [| first rest]; [reflexivity |].
  cbn [hd] in Hsorted. cbn [delayFirstNote].
  destruct (Rlt_dec first 2000) as [Hearly | Hlate].
  - split.
    + apply Forall_forall. intros time Hin. apply in_map_iff in Hin.
      destruct Hin as (t & Ht & Hin). rewrite Forall_forall in Hsorted.
      specialize (Hsorted t Hin). lra.
    + exists (2000 - first). split; [lra | reflexivity].
  - split.
    + apply Forall_forall. intros time Hin. rewrite Forall_forall in Hsorted.
      specialize (Hsorted time Hin). lra.
    + exists 0. split; [lra |].
      rewrite <- (map_id (first :: rest)) at 1. apply map_ext. intros t. ring.
Qed.

Lemma delayFirstNote_two_seconds_witness :
  match delayFirstNote [500; 1500] with
  | Throw => [500; 1500] = []
  | Normal delayed =>
      Forall (fun time => 2000 <= time) delayed
      /\ exists delay, 0 <= delay /\ delayed = map (fun time => time + delay) [500; 1500]
  end.
Proof.
  apply (delayFirstNote_two_seconds [500; 1500]).
  repeat constructor; cbn [hd]; lra.
Defined.

(** ** The way back through [undo] ends *)

Lemma undo_loop_shorter (currentPlanks : list Plank.t) (l : list Memento.t) :
  forall (older : list Memento.t) (res : Completion (option Memento.t)),
  Caretaker.undo_loop l currentPlanks = (older, res) ->
  (length older <= length l)%nat
  /\ (forall m, res = Normal (Some m) -> (length older < length l)%nat).
Proof.
  induction l as [| m l IH]; intros older res Hrun.
  - injection Hrun as Ho Hr. subst. split; [cbn; lia | discriminate].
  - cbn [Caretaker.undo_loop] in Hrun.
    destruct (Memento.getPlankStates m) as [plankStates |].
    + destruct (length plankStates =? length currentPlanks)%nat.
      * destruct (IH _ _ Hrun) as [Hle Hlt]. split; [cbn; lia |].
        intros m' Hm'. specialize (Hlt m' Hm'). cbn. lia.
      * injection Hrun as Ho Hr. subst. split; cbn; [lia | intros; lia].
    + injection Hrun as Ho Hr. subst. split; cbn; [lia | intros; lia].
Qed.

Lemma undo_consumes (c c' : Caretaker.t) (currentPlanks planks' : list Plank.t)
    (undoData : UndoData.t) :
  Caretaker.undo c currentPlanks = (c', planks', Normal undoData) ->
  0 < UndoData.time undoData ->
  (length (Caretaker.mementos c') < length (Caretaker.mementos c))%nat.
Proof.
  unfold Caretaker.undo. intros Hrun Htime.
  destruct (0 <? length (Caretaker.mementos c))%nat.
  - destruct (Caretaker.undo_loop (rev (Caretaker.mementos c)) currentPlanks)
      as [older res] eqn:Hloop.
    destruct (undo_loop_shorter _ _ _ _ Hloop) as [_ Hlt].
    rewrite length_rev in Hlt.
    destruct res as [[m |] |].
    + destruct (Originator.restoreState _ _ _) as [[o' ps] r].
      injection Hrun as Hc _ _. subst c'.
      cbn [Caretaker.mementos]. rewrite length_rev. now apply (Hlt m).
    + injection Hrun as _ _ Hd. subst undoData. cbn in Htime. lra.
    + discriminate.
  - injection Hrun as _ _ Hd. subst undoData. cbn in Htime. lra.
Qed.

Section WayBack.

Variable intersectionPairsWith : Rapier.World -> Rapier.Collider -> list Rapier.Collider.
Variable Shuffle : nat -> list R -> list R.

Lemma checkForNextPlank_S (fuel : nat) (passAngles : list R) (s : MusicMelody) :
  checkForNextPlank intersectionPairsWith Shuffle (S fuel) passAngles s
  = if (Z.of_nat (length (notes s)) <=? currentNoteIndex s)%Z then Some (Normal s)
    else
      match (if (currentNoteIndex s <? 0)%Z then None
             else nth_error (notes s) (Z.to_nat (currentNoteIndex s))) with
      | None => Some (Normal s)
      | Some nextNoteTime =>
        if Rge_dec (trackTime s) nextNoteTime then
          match placePlankForNote intersectionPairsWith Shuffle fuel passAngles s with
          | Some (Normal s') =>
            Some (Normal
                    (mkMusicMelody (world s') (notes s') (currentNoteIndex s' + 1)
                       (caretaker s') (currentPos s') (currentVelocity s')
                       (trackTime s') (rotations s') (shuffles s')))
          | other => other
          end
        else Some (Normal s)
      end.
Proof. reflexivity. Qed.

Lemma placePlankForNote_S (fuel : nat) (passAngles : list R) (s : MusicMelody) :
  placePlankForNote intersectionPairsWith Shuffle (S fuel) passAngles s
  = match placeCandidates intersectionPairsWith passAngles (currentPos s)
            (Shuffle (shuffles s) (rotations s))
            (Vector2.normalize (currentVelocity s)) (world s) with
    | (Some plankSprite, w') =>
      Some (Normal
              (mkMusicMelody w' (notes s) (currentNoteIndex s)
                 (withPlanks (caretaker s) (planks s ++ [plankSprite]))
                 (currentPos s) (currentVelocity s) (trackTime s)
                 (Shuffle (shuffles s) (rotations s)) (S (shuffles s))))
    | (None, w') =>
      match Caretaker.undo (caretaker s) (planks s) with
      | (_, _, Throw) => Some Throw
      | (c', planks', Normal undoData) =>
        checkForNextPlank intersectionPairsWith Shuffle fuel
          (match UndoData.angle undoData with
           | Some angles => angles
           | None => []
           end)
          (mkMusicMelody w' (notes s) (currentNoteIndex s - 1)
             (withPlanks c' planks')
             (currentPos s) (currentVelocity s) (UndoData.time undoData)
             (Shuffle (shuffles s) (rotations s)) (S (shuffles s)))
      end
    end.
Proof. reflexivity. Qed.

Lemma placement_step (n fuel : nat) (passAngles : list R) (s : MusicMelody) :
  (forall fuel' passAngles' s',
     (length (Caretaker.mementos (caretaker s')) < n)%nat ->
     Forall (fun time => 0 < time) (notes s') ->
     (2 * n <= fuel')%nat ->
     exists r,
       placePlankForNote intersectionPairsWith Shuffle fuel' passAngles' s' = Some r) ->
  (length (Caretaker.mementos (caretaker s)) <= n)%nat ->
  Forall (fun time => 0 < time) (notes s) ->
  (2 * n + 2 <= fuel)%nat ->
  exists r, placePlankForNote intersectionPairsWith Shuffle fuel passAngles s = Some r.
Proof.
  intros IH Hhist Hnotes Hfuel.
  destruct fuel as [| [| fuel]]; [lia | lia |].
  rewrite placePlankForNote_S.
  destruct (placeCandidates _ _ _ _ _ _) as [[plankSprite |] w']; [eauto |].
  destruct (Caretaker.undo (caretaker s) (planks s))
    as [[c' planks'] [undoData |]] eqn:Hundo; [| eauto].
  rewrite checkForNextPlank_S. cbn [notes currentNoteIndex trackTime].
  destruct (_ <=? _)%Z; [eauto |].
  destruct (if (_ <? 0)%Z then None else nth_error _ _)
    as [nextNoteTime |] eqn:Hnote; [| eauto].
  destruct (Rge_dec (UndoData.time undoData) nextNoteTime) as [Hdue | Hearly];
    [| eauto].
  assert (Hpos : 0 < nextNoteTime).
  { destruct (_ <? 0)%Z; [discriminate |].
    apply nth_error_In in Hnote. rewrite Forall_forall in Hnotes.
    now apply Hnotes. }
  assert (Hshrunk : (length (Caretaker.mementos c')
                     < length (Caretaker.mementos (caretaker s)))%nat)
    by (apply (undo_consumes _ _ _ _ _ Hundo); lra).
  match goal with
  | |- context [placePlankForNote _ _ fuel ?pass ?s2] =>
      destruct (IH fuel pass s2) as [r Hr];
        [cbn [caretaker withPlanks Caretaker.mementos]; lia
        | exact Hnotes | lia |];
      rewrite Hr
  end.
  destruct r; eauto.
Qed.

Lemma placement_ends (n : nat) :
  forall (fuel : nat) (passAngles : list R) (s : MusicMelody),
  (length (Caretaker.mementos (caretaker s)) <= n)%nat ->
  Forall (fun time => 0 < time) (notes s) ->
  (2 * n + 2 <= fuel)%nat ->
  exists r, placePlankForNote intersectionPairsWith Shuffle fuel passAngles s = Some r.
Proof.
  induction n as [| n IH]; intros fuel passAngles s Hhist Hnotes Hfuel.
  - apply (placement_step 0); try assumption. intros; lia.
  - apply (placement_step (S n)); try assumption.
    intros fuel' passAngles' s' Hh Hn Hf. apply IH; [lia | exact Hn | lia].
Qed.

(** X13.  With note times above 0, as [create] leaves them, a call of
    [checkForNextPlank] comes to an end however often placement fails:
    every further round of [placePlankForNote] has used up at least one
    memento of the history, so the calls nest no deeper than twice the
    length of the history plus three. *)
Theorem checkForNextPlank_ends (fuel : nat) (passAngles : list R) (s : MusicMelody) :
  Forall (fun time => 0 < time) (notes s) ->
  (2 * length (Caretaker.mementos (caretaker s)) + 3 <= fuel)%nat ->
  exists r,
    checkForNextPlank intersectionPairsWith Shuffle fuel passAngles s = Some r.
Proof.
  intros Hnotes Hfuel. destruct fuel as [| fuel]; [lia |].
  rewrite checkForNextPlank_S.
  destruct (_ <=? _)%Z; [eauto |].
  destruct (if (_ <? 0)%Z then None else nth_error _ _) as [nextNoteTime |];
    [| eauto].
  destruct (Rge_dec _ _) as [Hdue | Hearly]; [| eauto].
  destruct (placement_ends (length (Caretaker.mementos (caretaker s))) fuel
              passAngles s) as [r Hr]; [lia | exact Hnotes | lia |].
  rewrite Hr. destruct r; eauto.
Qed.

End WayBack.

Lemma checkForNextPlank_ends_witness :
  exists r, checkForNextPlank touchesNothing unshuffled 5 [] firstNoteScene = Some r.
Proof.
  apply (checkForNextPlank_ends touchesNothing unshuffled 5 [] firstNoteScene).
  - repeat constructor. cbn. lra.
  - cbn. lia.
Defined.

(** ** More on snapshots and undo *)

Lemma last_map_Some {A B : Type} (g : A -> B) (l : list A) :
  option_map g (last (map Some l) None) = last (map Some (map g l)) None.
Proof.
  induction l as [| e l IH]; [reflexivity |].
  destruct l as [| e' l]; [reflexivity |].
  exact IH.
Qed.

(** X14.  A snapshot has one plank state for each plank, in the order of
    the planks and with the handles of their bodies; each state's rotation
    list ends with the rotation of the body; the last plank state is the
    state of the last plank and there is none in a snapshot taken without
    planks; the time is the time given. *)
Theorem snapshot_mirrors_planks (o : Originator.t) (time : R) :
  exists states,
    Memento.getPlankStates (Originator.saveState o time) = Some states
    /\ map PlankState.handle states = obstacleIds (Originator.planks o)
    /\ map (fun state => last (PlankState.rotations state) 0) states
       = map (fun plank => Rapier.rotation (Plank.body plank)) (Originator.planks o)
    /\ option_map PlankState.handle
         (Memento.getLastPlankState (Originator.saveState o time))
       = last (map Some (obstacleIds (Originator.planks o))) None
    /\ Memento.getTime (Originator.saveState o time) = time.
Proof.
  eexists. split; [reflexivity |].
  unfold obstacleIds, Memento.getLastPlankState, Originator.saveState,
    Memento.constructor.
  cbn [Memento.plankStates Memento.getTime Memento.time].
  split; [| split; [| split; [| reflexivity]]].
  - rewrite map_map. reflexivity.
  - rewrite map_map. apply map_ext. intros plank.
    cbn [PlankState.rotations]. apply last_last.
  - rewrite last_map_Some. f_equal. f_equal. rewrite map_map. reflexivity.
Qed.




Lemma undo_loop_skips (currentPlanks : list Plank.t) (newer rest : list Memento.t) :
  forallb (skipped currentPlanks) newer = true ->
  Caretaker.undo_loop (newer ++ rest) currentPlanks
  = Caretaker.undo_loop rest currentPlanks.
Proof.
  induction newer as [| m newer IH]; intros H; [reflexivity |].
  cbn [forallb] in H. apply andb_true_iff in H. destruct H as [Hm Hrest].
  unfold skipped in Hm. cbn [app Caretaker.undo_loop].
  destruct (Memento.getPlankStates m) as [states |]; [| discriminate].
  rewrite Hm. now apply IH.
Qed.

Lemma undo_at_latest_change (c : Caretaker.t) (currentPlanks : list Plank.t)
    (older newer : list Memento.t) (m : Memento.t) (states : list PlankState.t) :
  Caretaker.mementos c = older ++ m :: newer ->
  forallb (skipped currentPlanks) newer = true ->
  Memento.getPlankStates m = Some states ->
  length states <> length currentPlanks ->
  Caretaker.undo c currentPlanks
  = let '(o', planks', r) :=
      Originator.restoreState (Caretaker.originator c) (Some m) currentPlanks in
    (Caretaker.mk older o', planks', r).
Proof.
  intros Hms Hnewer Hstates Hdiff. unfold Caretaker.undo. rewrite Hms.
  replace (0 <? length (older ++ m :: newer))%nat with true
    by (symmetry; apply Nat.ltb_lt; rewrite length_app; cbn; lia).
  rewrite rev_app_distr. cbn [rev]. rewrite <- app_assoc. cbn [app].
  rewrite undo_loop_skips by now apply forallb_rev.
  cbn [Caretaker.undo_loop]. rewrite Hstates.
  replace (length states =? length currentPlanks)%nat with false
    by (symmetry; now apply Nat.eqb_neq).
  rewrite rev_involutive. reflexivity.
Qed.

(** X16.  [undo] goes back to the newest memento that was taken with a
    different number of planks than there are now: the mementos after it
    are dropped unused, that one is handed to [restoreState] and dropped as
    well, and the older ones stay. *)
Theorem undo_picks_latest_change (c : Caretaker.t) (currentPlanks : list Plank.t)
    (older newer : list Memento.t) (m : Memento.t) (states : list PlankState.t) :
  Caretaker.mementos c = older ++ m :: newer ->
  forallb (skipped currentPlanks) newer = true ->
  Memento.getPlankStates m = Some states ->
  length states <> length currentPlanks ->
  Caretaker.undo c currentPlanks
  = let '(o', planks', r) :=
      Originator.restoreState (Caretaker.originator c) (Some m) currentPlanks in
    (Caretaker.mk older o', planks', r).
Proof. exact (undo_at_latest_change c currentPlanks older newer m states). Qed.

Lemma undo_picks_latest_change_witness :
  Caretaker.undo placedCaretaker [samplePlank 7]
  = let '(o', planks', r) :=
      Originator.restoreState (Caretaker.originator placedCaretaker)
        (Some (Memento.constructor sampleBall [] 0)) [samplePlank 7] in
    (Caretaker.mk [] o', planks', r).
Proof.
  apply (undo_picks_latest_change placedCaretaker [samplePlank 7] []
           [Memento.constructor sampleBall [samplePlank 7] 16]
           (Memento.constructor sampleBall [] 0) []).
  - reflexivity.
  - reflexivity.
  - reflexivity.
  - cbn. discriminate.
Defined.

Lemma save_ends_with_new (c : Caretaker.t) (time : R) :
  Caretaker.mementos (Caretaker.save c time)
  = removelast (Caretaker.mementos (Caretaker.save c time))
    ++ [Originator.saveState (Caretaker.originator c) time].
Proof.
  unfold Caretaker.save. cbv zeta.
  destruct (Nat.ltb_spec 1000
              (length (Caretaker.mementos c
                       ++ [Originator.saveState (Caretaker.originator c) time])))
    as [Hfull | Hroom]; cbn [Caretaker.mementos].
  - rewrite length_app in Hfull. cbn [length] in Hfull.
    destruct (Caretaker.mementos c) as [| first ms]; [cbn in Hfull; lia |].
    unfold shift. cbn [app tl]. now rewrite removelast_last.
  - now rewrite removelast_last.
Qed.

(** X17.  Save, let the scene move the ball and push one plank, then undo:
    the ball is back at the saved position and velocity, the live array is
    the saved planks again, the pushed plank's [handle] is queued for
    removal, the result is the saved time with that plank's [rotations],
    and the memento that was used is gone from the history. *)
Theorem undo_after_placing (c : Caretaker.t) (time : R)
    (movedBall : Rapier.RigidBody) (plank : Plank.t) :
  let o := Caretaker.originator c in
  let saved := Caretaker.save c time in
  let live := Originator.planks o ++ [plank] in
  let after :=
    Caretaker.undo
      (Caretaker.mk (Caretaker.mementos saved)
         (Originator.mk movedBall live (Originator.planksToRemove o)))
      live in
  snd after = Normal (UndoData.mk time (Plank.rotations plank) None)
  /\ snd (fst after) = Originator.planks o
  /\ Caretaker.mementos (fst (fst after)) = removelast (Caretaker.mementos saved)
  /\ Originator.planksToRemove (Caretaker.originator (fst (fst after)))
     = Originator.planksToRemove o ++ [Plank.handle plank]
  /\ Rapier.translation (Originator.ball (Caretaker.originator (fst (fst after))))
     = Rapier.translation (Originator.ball o)
  /\ Rapier.linvel (Originator.ball (Caretaker.originator (fst (fst after))))
     = Rapier.linvel (Originator.ball o).
Proof.
  cbv zeta.
  rewrite (undo_at_latest_change _ (Originator.planks (Caretaker.originator c) ++ [plank])
             (removelast (Caretaker.mementos (Caretaker.save c time))) []
             (Originator.saveState (Caretaker.originator c) time)
             (map (fun p =>
                     PlankState.mk
                       (Vector2.x (Rapier.translation (Plank.body p)))
                       (Vector2.y (Rapier.translation (Plank.body p)))
                       (match Plank.userDataRotations p with
                        | Some rs => rs
                        | None => []
                        end ++ [Rapier.rotation (Plank.body p)])
                       (Rapier.handle (Plank.body p)))
                  (Originator.planks (Caretaker.originator c)))).
  - unfold Originator.restoreState, Originator.restoreState_try,
      Originator.saveState, Memento.constructor.
    cbn [Memento.getBallState Memento.getPlankStates Memento.ballState
         Memento.plankStates Memento.getTime Memento.time Caretaker.originator
         Originator.ball Originator.planks Originator.planksToRemove
         BallState.x BallState.y BallState.velocityX BallState.velocityY].
    rewrite length_map, length_app. cbn [length].
    replace (length (Originator.planks (Caretaker.originator c))
             <=? length (Originator.planks (Caretaker.originator c)) + 1)%nat
      with true by (symmetry; apply Nat.leb_le; lia).
    rewrite pop_snoc.
    cbn [fst snd Caretaker.mementos Caretaker.originator Originator.ball
         Originator.planksToRemove].
    destruct (Originator.ball (Caretaker.originator c)) as [h ty [tx ty'] rot [vx vy]].
    repeat split; reflexivity.
  - cbn [Caretaker.mementos]. apply save_ends_with_new.
  - reflexivity.
  - reflexivity.
  - rewrite length_map, length_app. cbn [length]. lia.
Qed.

Lemma saves_wellFormed (o : Originator.t) (steps : list (Originator.t * R)) :
  forallb wellFormed
    (Caretaker.mementos (fold_left saveAfter steps (Caretaker.new o))) = true.
Proof.
  induction steps as [| step steps IH] using rev_ind; [reflexivity |].
  rewrite fold_left_snoc. unfold saveAfter at 1. unfold Caretaker.save.
  cbn [Caretaker.mementos Caretaker.originator].
  set (ms := Caretaker.mementos (fold_left saveAfter steps (Caretaker.new o))) in *.
  assert (Hall : forallb wellFormed
                   (ms ++ [Originator.saveState (fst step) (snd step)]) = true).
  { rewrite forallb_app, IH. reflexivity. }
  destruct (1000 <? _)%nat; cbn [Caretaker.mementos]; [| exact Hall].
  unfold shift. destruct (ms ++ _) as [| first rest]; [reflexivity |].
  cbn [forallb] in Hall. apply andb_true_iff in Hall. now destruct Hall.
Qed.

Lemma undo_loop_wellFormed (currentPlanks : list Plank.t) (l : list Memento.t) :
  forallb wellFormed l = true ->
  exists older found,
    Caretaker.undo_loop l currentPlanks = (older, Normal found).
Proof.
  induction l as [| m l IH]; intros Hall; [cbn; eauto |].
  cbn [forallb] in Hall. apply andb_true_iff in Hall. destruct Hall as [Hm Hl].
  cbn [Caretaker.undo_loop]. unfold wellFormed in Hm.
  unfold Memento.getPlankStates.
  destruct (Memento.ballState m); [| discriminate].
  destruct (Memento.plankStates m) as [states |]; [| discriminate].
  destruct (length states =? length currentPlanks)%nat; [now apply IH | eauto].
Qed.

Lemma restoreState_returns (o : Originator.t) (memento : option Memento.t)
    (currentPlanks : list Plank.t) :
  exists r, snd (Originator.restoreState o memento currentPlanks) = Normal r.
Proof.
  unfold Originator.restoreState.
  destruct (Originator.restoreState_try o memento currentPlanks) as [[o' ps] [r |]];
    cbn; eauto.
Qed.

(** X18.  Every memento that [save] leaves in the history has its ball
    state and its plank states, and on such a history [undo] returns a
    value whatever the live planks are: no exception leaves it. *)
Theorem undo_returns_after_saves (o : Originator.t)
    (steps : list (Originator.t * R)) (currentPlanks : list Plank.t) :
  let c := fold_left saveAfter steps (Caretaker.new o) in
  forallb wellFormed (Caretaker.mementos c) = true
  /\ exists r, snd (Caretaker.undo c currentPlanks) = Normal r.
Proof.
  cbv zeta. pose proof (saves_wellFormed o steps) as Hwf.
  split; [exact Hwf |].
  set (c := fold_left saveAfter steps (Caretaker.new o)) in *.
  unfold Caretaker.undo.
  destruct (0 <? length (Caretaker.mementos c))%nat; [| cbn; eauto].
  destruct (undo_loop_wellFormed currentPlanks (rev (Caretaker.mementos c)))
    as (older & found & Hloop); [now apply forallb_rev |].
  rewrite Hloop. destruct found as [m |]; [| cbn; eauto].
  destruct (restoreState_returns (Caretaker.originator c) (Some m) currentPlanks)
    as [r Hr].
  destruct (Originator.restoreState _ _ _) as [[o' ps] r']. cbn in *. eauto.
Qed.

(** ** More on the generator *)

(** *** The random order of the rotations *)

Lemma swap_nth (array : list nat) (i j k : nat) :
  (if (k =? i)%nat then nth j array 0%nat
   else if (k =? j)%nat then nth i array 0%nat
   else nth k array 0%nat)
  = nth (exchanged i j k) array 0%nat.
Proof.
  unfold exchanged. destruct (k =? i)%nat; [reflexivity |].
  destruct (k =? j)%nat; reflexivity.
Qed.

Lemma exchanged_bound (n i j k : nat) :
  (i < n)%nat -> (j < n)%nat -> (k < n)%nat -> (exchanged i j k < n)%nat.
Proof.
  intros Hi Hj Hk. unfold exchanged.
  destruct (k =? i)%nat; [exact Hj |]. destruct (k =? j)%nat; assumption.
Qed.

Lemma exchanged_injective (i j k k' : nat) :
  exchanged i j k = exchanged i j k' -> k = k'.
Proof.
  unfold exchanged.
  destruct (Nat.eqb_spec k i), (Nat.eqb_spec k' i),
    (Nat.eqb_spec k j), (Nat.eqb_spec k' j); intros; subst; congruence.
Qed.

Lemma swap_holdsEachOnce (n i j : nat) (array : list nat) :
  holdsEachOnce n array -> (i < n)%nat -> (j < n)%nat ->
  holdsEachOnce n (Generator.swap array i j).
Proof.
  intros (Hnodup & Hlen & Hbound) Hi Hj. unfold Generator.swap. cbv zeta.
  rewrite Hlen.
  rewrite (map_ext _ (fun k => nth (exchanged i j k) array 0%nat))
    by (intros k; apply swap_nth).
  split; [| split].
  - apply NoDup_map_NoDup_ForallPairs; [| apply seq_NoDup].
    intros k k' Hk Hk' Heq. apply in_seq in Hk, Hk'.
    apply (exchanged_injective i j).
    apply (proj1 (NoDup_nth array 0%nat) Hnodup); [| | exact Heq];
      rewrite Hlen; apply exchanged_bound; lia.
  - now rewrite length_map, length_seq.
  - intros x Hx. apply in_map_iff in Hx. destruct Hx as (k & Hk & Hin).
    apply in_seq in Hin. subst x. apply Hbound, nth_In.
    rewrite Hlen. apply exchanged_bound; lia.
Qed.

Lemma Qfloor_below (q : Q) (z : Z) : (q < inject_Z z)%Q -> (Qfloor q < z)%Z.
Proof.
  intros Hq. rewrite Zlt_Qlt.
  apply Qle_lt_trans with q; [apply Qfloor_le | exact Hq].
Qed.

Section RandomOrder.

Variable host : Generator.Host.
Hypothesis random_range :
  forall e, (0 <= fst (Generator.Math_random host e) < 1)%Q.

Lemma shuffleFrom_holdsEachOnce (n i : nat) :
  forall (array : list nat) (e : Generator.Env host),
  holdsEachOnce n array -> (i < n)%nat ->
  holdsEachOnce n (fst (Generator.shuffleFrom host i array e)).
Proof.
  induction i as [| i IH]; intros array e Harray Hi.
  - exact Harray.
  - cbn [Generator.shuffleFrom].
    pose proof (random_range e) as [Hr0 Hr1].
    destruct (Generator.Math_random host e) as [r e1]. cbn [fst] in Hr0, Hr1.
    apply IH; [| lia].
    apply swap_holdsEachOnce; [exact Harray | exact Hi |].
    assert (Hfloor : (Qfloor (r * inject_Z (Z.of_nat (S i) + 1)) < Z.of_nat (S i) + 1)%Z).
    { apply Qfloor_below.
      rewrite <- (Qmult_1_l (inject_Z (Z.of_nat (S i) + 1))) at 2.
      apply Qmult_lt_r; [| exact Hr1].
      change 0%Q with (inject_Z 0). rewrite <- Zlt_Qlt. lia. }
    lia.
Qed.

(** X19.  With [Math.random] in [0, 1), [getRandomPermutation(n)] returns
    a permutation of the indices 0 to n - 1; so the eleven entries it gives
    a frame read each of the eleven plank rotations exactly once, and every
    position of the frame's permutation leads to an angle. *)
Theorem getRandomPermutation_permutes (n : nat) (e : Generator.Env host) :
  Permutation (fst (Generator.getRandomPermutation host n e)) (seq 0 n)
  /\ Permutation
       (map (fun i => nth i Generator.PLANK_ROTATIONS 0%Q)
          (fst (Generator.getRandomPermutation host
                  (length Generator.PLANK_ROTATIONS) e)))
       Generator.PLANK_ROTATIONS
  /\ forall k, (k < length Generator.PLANK_ROTATIONS)%nat ->
       exists i angle,
         nth_error (fst (Generator.getRandomPermutation host
                           (length Generator.PLANK_ROTATIONS) e)) k = Some i
         /\ nth_error Generator.PLANK_ROTATIONS i = Some angle.
Proof.
  assert (Hperm : forall m,
            holdsEachOnce m (fst (Generator.getRandomPermutation host m e))).
  { intros m. unfold Generator.getRandomPermutation. cbv zeta.
    assert (Hseq : holdsEachOnce m (seq 0 m)).
    { split; [apply seq_NoDup | split; [apply length_seq |]].
      intros x Hx. apply in_seq in Hx. lia. }
    rewrite length_seq. destruct m as [| m]; [exact Hseq |].
    apply shuffleFrom_holdsEachOnce; [exact Hseq | lia]. }
  assert (Hp : forall m,
            Permutation (fst (Generator.getRandomPermutation host m e)) (seq 0 m)).
  { intros m. destruct (Hperm m) as (Hnodup & Hlen & Hbound).
    apply NoDup_Permutation_bis; [exact Hnodup | rewrite length_seq; lia |].
    intros x Hx. apply in_seq. specialize (Hbound x Hx). lia. }
  split; [apply Hp |]. split.
  - exact (Permutation_map (fun i => nth i Generator.PLANK_ROTATIONS 0%Q)
             (Hp (length Generator.PLANK_ROTATIONS))).
  - intros k Hk.
    destruct (Hperm (length Generator.PLANK_ROTATIONS)) as (_ & Hlen & Hbound).
    destruct (nth_error (fst (Generator.getRandomPermutation host
                                (length Generator.PLANK_ROTATIONS) e)) k)
      as [i |] eqn:Hi.
    + apply nth_error_In in Hi as Hin. specialize (Hbound i Hin).
      destruct (nth_error Generator.PLANK_ROTATIONS i) as [angle |] eqn:Ha.
      * eauto.
      * apply nth_error_None in Ha. lia.
    + apply nth_error_None in Hi. lia.
Qed.

End RandomOrder.

Lemma getRandomPermutation_permutes_witness :
  Permutation (fst (Generator.getRandomPermutation stillHost 3 0%nat)) (seq 0 3).
Proof.
  refine (proj1 (getRandomPermutation_permutes stillHost _ 3 0%nat)).
  intros e. cbn. split; [apply Qle_refl | reflexivity].
Defined.

Section GeneratorMore.

Variable host : Generator.Host.
Variable syncBallSprite : Generator.Env host -> Generator.Env host.
Variable normalizeVector : Generator.Vector.t -> Generator.Vector.t.
Variable rotateVector : Generator.Vector.t -> option Q -> Generator.Vector.t.
Variable checkHistoricalCollisions :
  Generator.MusicMelody host -> Generator.Vector.t -> Generator.Vector.t -> bool.

(** *** Simulating past the schedule *)

Lemma simulateSteps_no_note (remaining : nat) :
  forall (steps : nat) (state : Generator.StackState.t) (m : Generator.MusicMelody host),
  nth_error (Generator.notes host m) (Generator.StackState.noteIndex state) = None ->
  let '(success, steps', _, _) :=
    Generator.simulateSteps host remaining steps state m in
  success = true -> steps' = (steps + remaining)%nat.
Proof.
  induction remaining as [| remaining IH]; intros steps state m Hnone.
  - cbn. intros _. lia.
  - cbn [Generator.simulateSteps].
    destruct (Generator.ball_contact host _); [discriminate |].
    destruct (Generator.performance_now host _) as [now e2].
    rewrite Hnone.
    destruct (_ || _); [discriminate |].
    specialize (IH (S steps)
      (Generator.StackState.withSimulationSteps state
         (Generator.StackState.simulationSteps state + 1))
      (Generator.withEnv host m e2) Hnone).
    destruct (Generator.simulateSteps host remaining _ _ _) as [[[ok steps'] state'] m'].
    intros Hok. specialize (IH Hok). lia.
Qed.

(** X20.  For a frame whose note index lies past the end of the schedule,
    [simulateUntilNextNote] can end in two ways only: it fails on a contact
    or on the bounds, or it returns [true] after all 200 steps. *)
Theorem simulate_past_schedule (state : Generator.StackState.t)
    (m : Generator.MusicMelody host) :
  (length (Generator.notes host m) <= Generator.StackState.noteIndex state)%nat ->
  let '(success, steps, _, _) := Generator.simulateUntilNextNote host state m in
  success = true -> steps = 200%nat.
Proof.
  intros Hpast. apply nth_error_None in Hpast.
  unfold Generator.simulateUntilNextNote, Generator.MAX_SIMULATION_STEPS.
  pose proof (simulateSteps_no_note 200 0 state m Hpast) as H.
  destruct (Generator.simulateSteps host 200 0 state m) as [[[ok steps'] state'] m'].
  intros Hok. specialize (H Hok). lia.
Qed.

(** *** Restoring and rewinding *)

Lemma restorePlank_fold (note : option Generator.Note.t)
    (snapshotPlanks : list Generator.SnapshotPlank.t) :
  forall (ps : list Generator.PlankEntry.t) (e : Generator.Env host),
  map Generator.PlankEntry.angle
    (fst (fold_left (Generator.restorePlank host note) snapshotPlanks (ps, e)))
  = map Generator.PlankEntry.angle ps
    ++ map (fun p => Some (Generator.SnapshotPlank.angle p)) snapshotPlanks
  /\ map Generator.PlankEntry.note
       (fst (fold_left (Generator.restorePlank host note) snapshotPlanks (ps, e)))
     = map Generator.PlankEntry.note ps ++ map (fun _ => note) snapshotPlanks.
Proof.
  induction snapshotPlanks as [| plank rest IH]; intros ps e.
  - cbn. now rewrite !app_nil_r.
  - cbn [fold_left]. unfold Generator.restorePlank at 2 4.
    destruct (Generator.createRigidBody host _ e) as [plankBody e1].
    destruct (Generator.add_rectangle host _ _) as [plankSprite e3].
    destruct (IH (ps ++ [Generator.PlankEntry.mk plankBody plankSprite note
                           (Some (Generator.SnapshotPlank.angle plank))]) e3)
      as [Hangle Hnote].
    rewrite Hangle, Hnote, !map_app, <- !app_assoc. split; reflexivity.
Qed.

Lemma restoreWorldState_planks (m : Generator.MusicMelody host)
    (snapshot : Generator.WorldStateSnapshot.t) :
  let m' := Generator.restoreWorldState host syncBallSprite m snapshot in
  map Generator.PlankEntry.angle (Generator.planks host m')
  = map (fun p => Some (Generator.SnapshotPlank.angle p))
      (Generator.WorldStateSnapshot.planks snapshot)
  /\ map Generator.PlankEntry.note (Generator.planks host m')
     = map (fun _ => nth_error (Generator.notes host m)
                       (Generator.currentNoteIndex host m))
         (Generator.WorldStateSnapshot.planks snapshot)
  /\ Generator.stateStack host m' = Generator.stateStack host m
  /\ schedule m' = schedule m.
Proof.
  cbv zeta. unfold Generator.restoreWorldState.
  match goal with
  | |- context [fold_left ?f ?l (?ps, ?e)] =>
      pose proof (restorePlank_fold
                    (nth_error (Generator.notes host m)
                       (Generator.currentNoteIndex host m)) l ps e) as [Ha Hn];
      destruct (fold_left f l (ps, e)) as [ps' e4]
  end.
  cbn [fst map app] in Ha, Hn.
  cbn [Generator.planks Generator.withPlanks Generator.withEnv
       Generator.stateStack].
  repeat split; assumption.
Qed.


Lemma restoreTimes_planks (n : nat) :
  forall (m : Generator.MusicMelody host) (snapshot : Generator.WorldStateSnapshot.t),
  map Generator.PlankEntry.angle
    (Generator.planks host
       (Generator.restoreTimes host syncBallSprite (S n) m snapshot))
  = map (fun p => Some (Generator.SnapshotPlank.angle p))
      (Generator.WorldStateSnapshot.planks snapshot).
Proof.
  induction n as [| n IH]; intros m snapshot.
  - cbn [Generator.restoreTimes].
    exact (proj1 (restoreWorldState_planks m snapshot)).
  - change (Generator.restoreTimes host syncBallSprite (S (S n)) m snapshot)
      with (Generator.restoreTimes host syncBallSprite (S n)
              (Generator.restoreWorldState host syncBallSprite m snapshot) snapshot).
    apply IH.
Qed.

Lemma restoreTimes_schedule (n : nat) :
  forall (m : Generator.MusicMelody host) (snapshot : Generator.WorldStateSnapshot.t),
  schedule (Generator.restoreTimes host syncBallSprite n m snapshot) = schedule m.
Proof.
  induction n as [| n IH]; intros m snapshot; [reflexivity |].
  cbn [Generator.restoreTimes]. rewrite IH.
  exact (proj2 (proj2 (proj2 (restoreWorldState_planks m snapshot)))).
Qed.

Lemma rewindCurrentState_schedule (m : Generator.MusicMelody host) :
  schedule (Generator.rewindCurrentState host syncBallSprite m) = schedule m.
Proof.
  unfold Generator.rewindCurrentState.
  destruct (Generator.stateStack host m) as [| frame rest]; [reflexivity |].
  now rewrite restoreTimes_schedule.
Qed.

(** X22.  [rewindCurrentState] does nothing on an empty stack; otherwise
    it pops the top frame, and then restores that frame's own snapshot,
    but only if the frame has counted a simulation step: a frame that was
    never simulated is popped with the world left as it is. *)
Theorem rewind_pops_then_restores (m : Generator.MusicMelody host) :
  match Generator.stateStack host m with
  | [] => Generator.rewindCurrentState host syncBallSprite m = m
  | frame :: rest =>
      let m' := Generator.rewindCurrentState host syncBallSprite m in
      Generator.stateStack host m' = rest
      /\ schedule m' = schedule m
      /\ if (Generator.StackState.simulationSteps frame <=? 0)%Z
         then m' = Generator.withStateStack host m rest
         else map Generator.PlankEntry.angle (Generator.planks host m')
              = map (fun p => Some (Generator.SnapshotPlank.angle p))
                  (Generator.WorldStateSnapshot.planks
                     (Generator.StackState.worldState frame))
  end.
Proof.
  pose proof (rewindCurrentState_stack host syncBallSprite m) as Hstack.
  pose proof (rewindCurrentState_schedule m) as Hschedule.
  unfold Generator.rewindCurrentState in *.
  destruct (Generator.stateStack host m) as [| frame rest]; [reflexivity |].
  cbv zeta. cbn [tl] in Hstack. split; [exact Hstack |]. split; [exact Hschedule |].
  destruct (Z.leb_spec (Generator.StackState.simulationSteps frame) 0) as [Hle | Hgt].
  - replace (Z.to_nat (Generator.StackState.simulationSteps frame)) with 0%nat by lia.
    reflexivity.
  - replace (Z.to_nat (Generator.StackState.simulationSteps frame))
      with (S (Z.to_nat (Generator.StackState.simulationSteps frame) - 1)) by lia.
    apply restoreTimes_planks.
Qed.

(** *** What a call leaves alone *)

Lemma simulateSteps_keeps (remaining : nat) :
  forall (steps : nat) (state : Generator.StackState.t) (m : Generator.MusicMelody host),
  let '(_, _, state', m') :=
    Generator.simulateSteps host remaining steps state m in
  Generator.StackState.noteIndex state' = Generator.StackState.noteIndex state
  /\ schedule m' = schedule m.
Proof.
  induction remaining as [| remaining IH]; intros steps state m.
  - cbn. split; reflexivity.
  - cbn [Generator.simulateSteps].
    destruct (Generator.ball_contact host _); [split; reflexivity |].
    destruct (Generator.performance_now host _) as [now e2].
    destruct (match nth_error _ _ with Some _ => _ | None => _ end);
      [split; reflexivity |].
    destruct (_ || _); [split; reflexivity |].
    specialize (IH (S steps)
      (Generator.StackState.withSimulationSteps state
         (Generator.StackState.simulationSteps state + 1))
      (Generator.withEnv host m e2)).
    destruct (Generator.simulateSteps host remaining _ _ _) as [[[ok steps'] state'] m'].
    exact IH.
Qed.

Lemma tryPlacePlank_schedule (state : Generator.StackState.t)
    (m : Generator.MusicMelody host) :
  schedule (snd (Generator.tryPlacePlank host normalizeVector rotateVector
                   checkHistoricalCollisions state m))
  = schedule m.
Proof.
  unfold Generator.tryPlacePlank.
  destruct (negb _); [reflexivity |].
  destruct (Generator.createRigidBody host _ _) as [plankBody e1].
  destruct (Generator.add_rectangle host _ _) as [plankSprite e3].
  reflexivity.
Qed.

Lemma pushNewState_schedule (m : Generator.MusicMelody host) :
  schedule (Generator.pushNewState host m) = schedule m.
Proof.
  unfold Generator.pushNewState, Generator.saveWorldState.
  destruct (Generator.performance_now host _) as [now e]. reflexivity.
Qed.

Lemma schedule_index (a b : Generator.MusicMelody host) :
  schedule a = schedule b ->
  Generator.currentNoteIndex host a = Generator.currentNoteIndex host b.
Proof. unfold schedule. intros H. now inversion H. Qed.

Lemma rewind_index (m2 m : Generator.MusicMelody host)
    (stack : list Generator.StackState.t) :
  schedule m2 = schedule m ->
  Generator.currentNoteIndex host
    (Generator.rewindCurrentState host syncBallSprite
       (Generator.withStateStack host m2 stack))
  = Generator.currentNoteIndex host m.
Proof.
  intros H. apply schedule_index.
  rewrite rewindCurrentState_schedule. exact H.
Qed.

Lemma placeOrRewind_aim (currentState : Generator.StackState.t)
    (rest : list Generator.StackState.t) (m : Generator.MusicMelody host) :
  framesAim (Generator.withStateStack host m (currentState :: rest)) ->
  let '(m', _) :=
    Generator.placeOrRewind host syncBallSprite normalizeVector rotateVector
      checkHistoricalCollisions currentState rest m in
  schedule m' = schedule m /\ framesAim m'.
Proof.
  unfold framesAim. cbn [Generator.stateStack Generator.withStateStack
                         Generator.currentNoteIndex].
  intros Haim. inversion Haim as [| ? ? Hcur Hrest]; subst.
  unfold Generator.placeOrRewind.
  assert (Hplace : forall (state1 : Generator.StackState.t)
                          (m1 : Generator.MusicMelody host),
    Generator.StackState.noteIndex state1
    = Generator.StackState.noteIndex currentState ->
    schedule m1 = schedule m ->
    let '(m', _) :=
      (let '(placed, m2) :=
         Generator.tryPlacePlank host normalizeVector rotateVector
           checkHistoricalCollisions state1
           (Generator.withStateStack host m1 (state1 :: rest)) in
       if negb placed then
         let state2 :=
           Generator.StackState.withRotationIndex state1
             (Generator.StackState.rotationIndex state1 + 1) in
         let m3 := Generator.withStateStack host m2 (state2 :: rest) in
         if (Z.of_nat (length Generator.PLANK_ROTATIONS)
             <=? Generator.StackState.rotationIndex state2)%Z
         then (Generator.rewindCurrentState host syncBallSprite m3, false)
         else (m3, false)
       else (Generator.pushNewState host m2, true)) in
    schedule m' = schedule m
    /\ Forall (fun frame =>
                 Generator.StackState.noteIndex frame = 0%nat
                 \/ Generator.StackState.noteIndex frame
                    = (Generator.currentNoteIndex host m' + 1)%nat)
         (Generator.stateStack host m')).
  { intros state1 m1 Hindex Hm1.
    pose proof (tryPlacePlank_stack host normalizeVector rotateVector
                  checkHistoricalCollisions state1
                  (Generator.withStateStack host m1 (state1 :: rest))) as Hstack.
    pose proof (tryPlacePlank_schedule state1
                  (Generator.withStateStack host m1 (state1 :: rest))) as Hsched.
    destruct (Generator.tryPlacePlank host normalizeVector rotateVector
                checkHistoricalCollisions state1 _) as [placed m2].
    cbn [snd Generator.stateStack Generator.withStateStack] in Hstack.
    cbn [snd] in Hsched.
    assert (Hm2 : schedule m2 = schedule m) by (rewrite Hsched; exact Hm1).
    assert (Hidx : Generator.currentNoteIndex host m2
                   = Generator.currentNoteIndex host m)
      by (apply schedule_index; exact Hm2).
    destruct placed; cbn [negb].
    - destruct (pushNewState_stack host m2) as [snapshot Hpush].
      pose proof (pushNewState_schedule m2) as Hp.
      assert (Hidx' : Generator.currentNoteIndex host (Generator.pushNewState host m2)
                      = Generator.currentNoteIndex host m)
        by (apply schedule_index; congruence).
      split; [congruence |].
      rewrite Hpush, Hstack, Hidx'.
      constructor; [right; cbn; lia |].
      constructor; [rewrite Hindex; exact Hcur | exact Hrest].
    - cbv zeta. destruct (_ <=? _)%Z.
      + rewrite rewindCurrentState_schedule, rewindCurrentState_stack.
        cbn [Generator.stateStack Generator.withStateStack tl].
        split; [exact Hm2 |].
        rewrite (rewind_index m2 m _ Hm2). exact Hrest.
      + cbn [Generator.stateStack Generator.withStateStack
             Generator.currentNoteIndex].
        split; [exact Hm2 |]. rewrite Hidx.
        constructor; [cbn; rewrite Hindex; exact Hcur | exact Hrest]. }
  destruct (Generator.StackState.rotationIndex currentState =? -1)%Z.
  - unfold Generator.simulateUntilNextNote.
    pose proof (simulateSteps_keeps Generator.MAX_SIMULATION_STEPS 0 currentState m)
      as Hkeep.
    destruct (Generator.simulateSteps host _ _ _ _) as [[[success steps'] state'] m'].
    destruct Hkeep as [Hindex Hsched].
    destruct success.
    + destruct (Generator.getRandomPermutation host _ _) as [permutation e].
      cbn [negb]. apply Hplace; [exact Hindex | exact Hsched].
    + cbn [negb]. rewrite rewindCurrentState_schedule, rewindCurrentState_stack.
      cbn [Generator.stateStack Generator.withStateStack tl].
      split; [exact Hsched |].
      rewrite (rewind_index m' m _ Hsched). exact Hrest.
  - cbn [negb]. apply Hplace; reflexivity.
Qed.

Lemma searchPass_aim (m : Generator.MusicMelody host) :
  framesAim m ->
  let '(m', _) :=
    Generator.searchPass host syncBallSprite normalizeVector rotateVector
      checkHistoricalCollisions m in
  schedule m' = schedule m /\ framesAim m'.
Proof.
  intros Haim. unfold Generator.searchPass.
  set (m1 := Generator.countProgress host m).
  assert (H1 : Generator.stateStack host m1 = Generator.stateStack host m
               /\ schedule m1 = schedule m).
  { unfold m1, Generator.countProgress. destruct (_ <? _)%Z; split; reflexivity. }
  destruct H1 as [Hstack1 Hsched1].
  assert (Hrewind : forall m2,
            Generator.stateStack host m2 = Generator.stateStack host m ->
            schedule m2 = schedule m ->
            schedule (Generator.rewindCurrentState host syncBallSprite m2)
            = schedule m
            /\ framesAim (Generator.rewindCurrentState host syncBallSprite m2)).
  { intros m2 Hs Hc. pose proof (rewindCurrentState_schedule m2) as Hr.
    split; [congruence |]. unfold framesAim in *.
    rewrite rewindCurrentState_stack, Hs.
    replace (Generator.currentNoteIndex host
               (Generator.rewindCurrentState host syncBallSprite m2))
      with (Generator.currentNoteIndex host m)
      by (symmetry; apply schedule_index; congruence).
    destruct (Generator.stateStack host m) as [| top rest]; [constructor |].
    now inversion Haim. }
  assert (Hgo : forall m2,
            Generator.stateStack host m2 = Generator.stateStack host m ->
            schedule m2 = schedule m ->
            let '(m', _) :=
              match Generator.stateStack host m2 with
              | [] => (m2, false)
              | currentState :: rest =>
                  Generator.placeOrRewind host syncBallSprite normalizeVector
                    rotateVector checkHistoricalCollisions currentState rest m2
              end in
            schedule m' = schedule m /\ framesAim m').
  { intros m2 Hs Hc.
    destruct (Generator.stateStack host m2) as [| currentState rest] eqn:Hstack2.
    - split; [exact Hc |]. unfold framesAim. rewrite Hstack2. constructor.
    - pose proof (placeOrRewind_aim currentState rest m2) as Hp.
      destruct (Generator.placeOrRewind host syncBallSprite normalizeVector
                  rotateVector checkHistoricalCollisions currentState rest m2)
        as [m' counted].
      destruct Hp as [Hp1 Hp2].
      + unfold framesAim in *.
        cbn [Generator.stateStack Generator.withStateStack
             Generator.currentNoteIndex].
        rewrite <- Hs in Haim.
        replace (Generator.currentNoteIndex host m2)
          with (Generator.currentNoteIndex host m)
          by (symmetry; apply schedule_index; exact Hc).
        exact Haim.
      + split; [congruence | exact Hp2]. }
  destruct ((2000 <? Generator.noImprovementCount host m1)%Z); cbn [andb].
  - destruct (Generator.nearBest host m1).
    + now apply Hrewind.
    + apply Hgo; [exact Hstack1 | exact Hsched1].
  - apply Hgo; [exact Hstack1 | exact Hsched1].
Qed.

Lemma searchLoop_aim (fuel : nat) :
  forall (n iterations : Z) (passes : nat) (m : Generator.MusicMelody host),
  framesAim m ->
  match Generator.searchLoop host syncBallSprite normalizeVector rotateVector
          checkHistoricalCollisions fuel n iterations passes m with
  | Some (m', _, _) => schedule m' = schedule m /\ framesAim m'
  | None => True
  end.
Proof.
  induction fuel as [| fuel IH]; intros n iterations passes m Haim;
    cbn [Generator.searchLoop].
  - destruct (_ && _); [exact I | split; [reflexivity | exact Haim]].
  - destruct (_ && _); [| split; [reflexivity | exact Haim]].
    pose proof (searchPass_aim m Haim) as Hpass.
    destruct (Generator.searchPass host syncBallSprite normalizeVector rotateVector
                checkHistoricalCollisions m) as [m1 counted].
    destruct Hpass as [Hs1 Ha1].
    specialize (IH n (if counted then (iterations + 1)%Z else iterations)
                  (S passes) m1 Ha1).
    destruct (Generator.searchLoop host syncBallSprite normalizeVector rotateVector
                checkHistoricalCollisions fuel n _ _ m1) as [[[m' i'] p'] |];
      [| exact I].
    destruct IH as [Hs Ha]. split; [congruence | exact Ha].
Qed.

(** X23.  A call of the generator's loop comes to an end and changes
    neither the notes nor [currentNoteIndex] nor the start time nor the
    flags, so the frames it pushes all aim at the same note, the one after
    the current one: on a stack where every frame aims at note 0 or at that
    note, this is still so when the loop ends. *)
Theorem search_keeps_schedule (fuel : nat) (n : Z) (m : Generator.MusicMelody host) :
  framesAim m ->
  (passBound n m <= fuel)%nat ->
  exists m' iterations passes,
    Generator.searchLoop host syncBallSprite normalizeVector rotateVector
      checkHistoricalCollisions fuel n 0 0 m
    = Some (m', iterations, passes)
    /\ schedule m' = schedule m
    /\ framesAim m'.
Proof.
  intros Haim Hfuel.
  destruct (searchLoop_ends host syncBallSprite normalizeVector rotateVector
              checkHistoricalCollisions fuel n 0%Z 0%nat m)
    as (m' & iterations & passes & Hrun & _).
  { unfold passBound in Hfuel. now rewrite Z.sub_0_r. }
  pose proof (searchLoop_aim fuel n 0%Z 0%nat m Haim) as Hkeep.
  rewrite Hrun in Hkeep.
  exists m', iterations, passes. split; [exact Hrun | exact Hkeep].
Qed.

End GeneratorMore.

Lemma simulate_past_schedule_witness :
  let '(success, steps, _, _) :=
    Generator.simulateUntilNextNote stillHost rootFrame silentScene in
  success = true -> steps = 200%nat.
Proof.
  apply (simulate_past_schedule stillHost rootFrame silentScene).
  cbn. lia.
Defined.

Lemma search_keeps_schedule_witness :
  exists m' iterations passes,
    Generator.searchLoop stillHost (fun e => e) sameVector unrotated
      acceptFirstOnly 300 20 0 0
      (Generator.startGeneration stillHost blankScene)
    = Some (m', iterations, passes)
    /\ schedule m' = schedule (Generator.startGeneration stillHost blankScene)
    /\ framesAim m'.
Proof.
  apply (search_keeps_schedule stillHost (fun e => e) sameVector unrotated
           acceptFirstOnly 300 20 (Generator.startGeneration stillHost blankScene)).
  - unfold framesAim. cbn. constructor; [left; reflexivity | constructor].
  - vm_compute. lia.
Defined.
